(** * ModuleArgsParser (v2/ansible/parsing/mod_args.py)

    A shallow embedding of [ModuleArgsParser] and its helpers, and the
    properties of [parse] that the specification of the task normalizer
    states.

    Python dictionaries are mutable objects that are passed around by
    reference: the parser receives the task record by reference, hands
    nested mappings on without copying them, and writes into dictionaries
    ([del args['module']], [final_args.update], [args['_uses_shell'] = True]).
    The embedding therefore keeps an explicit store of dictionary objects
    and threads it through every function, together with the exception
    that a call may raise. *)

From Stdlib Require Import Ascii ZArith.
From stdpp Require Import base option list strings gmap fin_maps.

(** ** Values and the store *)

(** A reference to a dictionary object: its index in the store. *)
Abbreviation loc := nat (only parsing).

(** The values a task record loaded from YAML holds that the parser
    distinguishes: [None], booleans, integers, strings and (references to)
    dictionaries.  Sequences are left out: the parser never builds one.

    [VInt z] is the integer [z] as the loader builds it: an [int] when
    [z] lies within [sys.maxint], a [long] beyond it.  [VStr s] is a
    string with the characters [s], of codes 0 to 255; Python 2 has two
    types of them, [str] and [unicode], which the parser treats alike
    ([string_types]) but for the characters that [split()] takes as
    whitespace: see [split] below. *)
Inductive value :=
| VNone
| VBool (b : bool)
| VInt (z : Z)
| VStr (s : string)
| VDict (l : loc).

(** The contents of one dictionary object, keyed by strings. *)
Abbreviation dict := (gmap string value) (only parsing).

(** The store: every dictionary object allocated so far. *)
Abbreviation heap := (list (gmap string value)) (only parsing).

(** What a call can raise.  [AnsibleParserError] carries its message and
    the [obj] it was raised with (a reference to the task record); the
    next four are Python's built-in exceptions.  [DanglingRef] is not a
    Python exception: it marks a read through a reference to no object,
    which no Python state contains. *)
Inductive exn :=
| AnsibleParserError (msg : string) (obj : loc)
| IndexError
| KeyError
| TypeError
| ValueError
| DanglingRef.

Inductive outcome (A : Type) :=
| Ret (a : A)
| Raise (e : exn).
Arguments Ret {A} a.
Arguments Raise {A} e.

(** A computation reads and writes the store and returns or raises; what
    it wrote before raising stays written. *)
Definition M (A : Type) := heap -> outcome A * heap.

Definition ret {A} (a : A) : M A := fun h => (Ret a, h).
Definition raise {A} (e : exn) : M A := fun h => (Raise e, h).
Definition bind {A B} (m : M A) (k : A -> M B) : M B :=
  fun h => match m h with
           | (Ret a, h') => k a h'
           | (Raise e, h') => (Raise e, h')
           end.

Declare Scope py_scope.
Delimit Scope py_scope with py.
Notation "x <- m ;; k" := (bind m (fun x => k))
  (at level 100, m at next level, right associativity) : py_scope.
Notation "'let*' p := m 'in' k" := (bind m (fun x => match x with p => k end))
  (at level 100, p pattern, m at next level, right associativity) : py_scope.
Notation "m ;; k" := (bind m (fun _ => k))
  (at level 100, right associativity) : py_scope.
Local Open Scope py_scope.

(** ** Store primitives *)

Definition deref (l : loc) : M dict :=
  fun h => match h !! l with
           | Some d => (Ret d, h)
           | None => (Raise DanglingRef, h)
           end.

(** [dict()], [d.copy()], the result of a call: a new object. *)
Definition alloc (d : dict) : M loc :=
  fun h => (Ret (length h), h ++ [d]).

Definition store (l : loc) (d : dict) : M unit :=
  fun h => (Ret tt, <[l := d]> h).

(** ** Python operations *)

(** [x is not None] *)
Definition is_not_none (v : value) : bool :=
  match v with VNone => false | _ => true end.

(** [x == 'name'] for a string literal *)
Definition py_eq_str (v : value) (name : string) : bool :=
  match v with VStr s => String.eqb s name | _ => false end.

(** [x in ('a', 'b', ...)] for string literals *)
Definition py_in (v : value) (names : list string) : bool :=
  existsb (py_eq_str v) names.

(** [bool(d)] for the contents of a dictionary *)
Definition dict_nonempty (d : dict) : bool :=
  match map_to_list d with [] => false | _ :: _ => true end.

(** [k in d] *)
Definition dict_has (k : string) (d : dict) : bool :=
  match d !! k with Some _ => true | None => false end.

(** [if x:], the truth value of [x] *)
Definition truth (v : value) : M bool :=
  match v with
  | VNone => ret false
  | VBool b => ret b
  | VInt z => ret (negb (Z.eqb z 0))
  | VStr s => ret (negb (String.eqb s ""))
  | VDict l => d <- deref l ;; ret (dict_nonempty d)
  end.

(** [d[k]] *)
Definition getitem (k : string) (l : loc) : M value :=
  d <- deref l ;;
  match d !! k with
  | Some v => ret v
  | None => raise KeyError
  end.

(** [d.get(k, default)] *)
Definition get (k : string) (dflt : value) (l : loc) : M value :=
  d <- deref l ;; ret (default dflt (d !! k)).

(** [k in d] on a dictionary object *)
Definition contains (k : string) (l : loc) : M bool :=
  d <- deref l ;; ret (dict_has k d).

(** [d[k] = v] *)
Definition setitem (k : string) (v : value) (l : loc) : M unit :=
  d <- deref l ;; store l (<[k := v]> d).

(** [del d[k]] *)
Definition delitem (k : string) (l : loc) : M unit :=
  d <- deref l ;;
  if dict_has k d then store l (delete k d) else raise KeyError.

(** [d.copy()] *)
Definition copy (l : loc) : M loc :=
  d <- deref l ;; alloc d.

(** [d.update(x)]: the items of a dictionary [x] are written over [d]'s.
    Of a string Python takes the characters as items, and a character is
    no key and value pair ([ValueError]) unless there is none; the other
    values cannot be iterated ([TypeError]). *)
Definition update (l : loc) (x : value) : M unit :=
  match x with
  | VDict lx => src <- deref lx ;; d <- deref l ;; store l (src ∪ d)
  | VStr s => if String.eqb s "" then ret tt else raise ValueError
  | VNone | VBool _ | VInt _ => raise TypeError
  end.

(** [sys.maxint] of a 64-bit and of a 32-bit interpreter. *)
Definition maxint64 : Z := 2 ^ 63 - 1.
Definition maxint32 : Z := 2 ^ 31 - 1.

(** [type(x)] as [%s] prints it, in an interpreter whose [sys.maxint] is
    [maxint]: an integer is an [int] from [-maxint - 1] to [maxint] and a
    [long] outside.  The parser prints the type of a value that is
    neither a string nor a dictionary ([printed] below); for those two
    the name given is that of a byte string and of a [dict]. *)
Definition type_repr (maxint : Z) (v : value) : string :=
  match v with
  | VNone => "<type 'NoneType'>"
  | VBool _ => "<type 'bool'>"
  | VInt z =>
      if Z.leb (- maxint - 1) z && Z.leb z maxint then "<type 'int'>"
      else "<type 'long'>"
  | VStr _ => "<type 'str'>"
  | VDict _ => "<type 'dict'>"
  end.

(** The whitespace of a byte string ([str]), in the C locale: space, tab,
    line feed, vertical tab, form feed, carriage return. *)
Definition str_space (c : ascii) : bool :=
  let n := nat_of_ascii c in
  Nat.eqb n 32 || (Nat.leb 9 n && Nat.leb n 13).

(** The whitespace of a [unicode] string, among the characters of codes
    0 to 255: that of a byte string, the separators U+001C to U+001F,
    the next line U+0085 and the no-break space U+00A0. *)
Definition unicode_space (c : ascii) : bool :=
  let n := nat_of_ascii c in
  str_space c || (Nat.leb 28 n && Nat.leb n 31) ||
  Nat.eqb n 133 || Nat.eqb n 160.

Definition flush (word : string) : list string :=
  match word with EmptyString => [] | _ => [word] end.

(** [s.split()]: the maximal runs of characters of [s] that are not
    whitespace.  Which characters are whitespace depends on the type of
    [s], so [split] takes them as [is_space]: [str_space] for a byte
    string, [unicode_space] for a [unicode] string. *)
Fixpoint split_from (is_space : ascii -> bool) (word s : string)
  : list string :=
  match s with
  | EmptyString => flush word
  | String c s' =>
      if is_space c then flush word ++ split_from is_space "" s'
      else split_from is_space (word +:+ String c "") s'
  end.

Definition split (is_space : ascii -> bool) (s : string) : list string :=
  split_from is_space "" s.

(** [" ".join(l)] *)
Definition join (l : list string) : string := String.concat " " l.

(** [l[i]] on a list *)
Definition index {A} (l : list A) (i : nat) : M A :=
  match l !! i with
  | Some x => ret x
  | None => raise IndexError
  end.

(** ** The parser *)

Section ModuleArgsParser.

(** The whitespace of the string that [str.split()] is called on:
    [str_space] when the string is a byte string, [unicode_space] when it
    is a [unicode] string.  It is given for the run and not with every
    string, since a run of [parse] splits one string at most: the value
    of [action], or that of [local_action] when [action] has determined
    no operation (after a string has been split the operation is its
    first token, and every later step that would split raises before). *)
Variable is_space : ascii -> bool.

(** [sys.maxint] *)
Variable maxint : Z.

(** [item in module_loader]: the registry of known modules. *)
Variable module_loader : string -> bool.

(** [ansible.parsing.splitter.parse_kv(args, check_raw)]: the tokenizer,
    which is not among the sources.  It is taken as the spec describes
    it, a function from a text and the raw mode flag to a mapping, and
    what it returns is a new dictionary. *)
Variable parse_kv : string -> bool -> dict.

(** [iteritems(d)]: the items of a dictionary in the order the
    interpreter walks them, which Python 2 leaves open; the properties
    below assume of it only that it walks every item once. *)
Variable iteritems : dict -> list (string * value).

(** [self._task_ds] *)
Variable task_ds : loc.

Definition _split_module_string (str : string) : M (string * string) :=
  let tokens := split is_space str in
  if Nat.ltb 1 (length tokens) then
    t0 <- index tokens 0 ;; ret (t0, join (drop 1 tokens))
  else
    t0 <- index tokens 0 ;; ret (t0, "").

Definition _handle_shell_weirdness (action : value) (args : loc)
  : M (value * loc) :=
  if negb (py_in action ["shell"; "command"]) then ret (action, args)
  else if py_eq_str action "shell" then
    setitem "_uses_shell" (VBool true) args ;;
    ret (VStr "command", args)
  else ret (action, args).

Definition unexpected_type (thing : value) : exn :=
  AnsibleParserError
    ("unexpected parameter type in action: " +:+ type_repr maxint thing)
        task_ds.

(** Returns a dictionary ([Some]) or [None]. *)
Definition _normalize_old_style_args (thing action : value)
  : M (option loc) :=
  match thing with
  | VDict l => ret (Some l)
  | VStr s =>
      let check_raw := py_in action ["command"; "shell"; "script"] in
      args <- alloc (parse_kv s check_raw) ;;
      ret (Some args)
  | VNone => ret None
  | VBool _ | VInt _ => raise (unexpected_type thing)
  end.

Definition _normalize_new_style_args (thing : value)
  : M (value * option loc) :=
  match thing with
  | VDict l =>
      thing <- copy l ;;
      has_module <- contains "module" thing ;;
      if has_module then
        action <- getitem "module" thing ;;
        args <- copy thing ;;
        delitem "module" args ;;
        ret (action, Some args)
      else ret (VNone, None)
  | VStr s =>
      let* (action, args) := _split_module_string s in
      let check_raw :=
        py_in (VStr action) ["command"; "shell"; "script"] in
      args <- alloc (parse_kv args check_raw) ;;
      ret (VStr action, Some args)
  | VNone | VBool _ | VInt _ => raise (unexpected_type thing)
  end.

(** [if args and 'args' in args: args = args['args']] *)
Definition unwrap_args (args : option loc) : M value :=
  match args with
  | None => ret VNone
  | Some l =>
      nonempty <- truth (VDict l) ;;
      if nonempty then
        has_args <- contains "args" l ;;
        if has_args then getitem "args" l else ret (VDict l)
      else ret (VDict l)
  end.

(** [if x: final_args.update(x)] *)
Definition update_if (final_args : loc) (x : value) : M unit :=
  nonempty <- truth x ;;
  if nonempty then update final_args x else ret tt.

Definition _normalize_parameters
  (thing action additional_args : value) : M (value * loc) :=
  final_args <- alloc ∅ ;;
  update_if final_args additional_args ;;
  let* (action, args) :=
    (if is_not_none action then
       args <- _normalize_old_style_args thing action ;;
       ret (action, args)
     else _normalize_new_style_args thing) in
  args <- unwrap_args args ;;
  update_if final_args args ;;
  ret (action, final_args).

(** The locals of [parse] that its steps read and write. *)
Record locals := Locals {
  action : value;
  args : loc;
  delegate_to : value;
}.

(** [additional_args = self._task_ds.get('args', dict())], after the
    initial [args = dict()]. *)
Definition parse_init : M (locals * value) :=
  args <- alloc ∅ ;;
  dflt <- alloc ∅ ;;
  additional_args <- get "args" (VDict dflt) task_ds ;;
  ret (Locals VNone args VNone, additional_args).

(** [if 'action' in self._task_ds: ...] *)
Definition parse_action (additional_args : value) (st : locals)
  : M locals :=
  present <- contains "action" task_ds ;;
  if present then
    thing <- getitem "action" task_ds ;;
    let* (action, args) :=
      _normalize_parameters thing VNone additional_args in
    ret (Locals action args VNone)
  else ret st.

(** [if 'local_action' in self._task_ds: ...] *)
Definition parse_local_action (additional_args : value) (st : locals)
  : M locals :=
  present <- contains "local_action" task_ds ;;
  if present then
    if is_not_none (action st) then
      raise (AnsibleParserError
               "action and local_action are mutually exclusive" task_ds)
    else
      thing <- get "local_action" (VStr "") task_ds ;;
      let* (action, args) :=
        _normalize_parameters thing VNone additional_args in
      ret (Locals action args (VStr "localhost"))
  else ret st.

(** The body of [for (item, value) in iteritems(self._task_ds)]. *)
Fixpoint parse_items (additional_args : value)
  (items : list (string * value)) (st : locals) : M locals :=
  match items with
  | [] => ret st
  | (item, value) :: items =>
      if module_loader item || String.eqb item "meta" then
        if is_not_none (action st) then
          raise (AnsibleParserError
                   "conflicting action statements" task_ds)
        else
          let* (action, args) :=
            _normalize_parameters value (VStr item) additional_args in
          parse_items additional_args items
            (Locals action args (delegate_to st))
      else parse_items additional_args items st
  end.

(** [for (item, value) in iteritems(self._task_ds)]: the items are those
    of the record when the walk starts, the record not being written
    while it is walked. *)
Definition parse_scan (additional_args : value) (st : locals)
  : M locals :=
  ds <- deref task_ds ;;
  parse_items additional_args (iteritems ds) st.

(** The check that an action was seen, and the handling of shell. *)
Definition parse_finish (st : locals) : M (value * loc * value) :=
  if is_not_none (action st) then
    let* (action, args) :=
      _handle_shell_weirdness (action st) (args st) in
    ret (action, args, delegate_to st)
  else
    raise (AnsibleParserError "no action detected in task" task_ds).

Definition parse : M (value * loc * value) :=
  let* (st, additional_args) := parse_init in
  st <- parse_action additional_args st ;;
  st <- parse_local_action additional_args st ;;
  st <- parse_scan additional_args st ;;
  parse_finish st.

(** The steps of [parse] that determine the operation: all but the last. *)
Definition parse_determine : M locals :=
  let* (st, additional_args) := parse_init in
  st <- parse_action additional_args st ;;
  st <- parse_local_action additional_args st ;;
  parse_scan additional_args st.

End ModuleArgsParser.

(** ** A registry and a tokenizer to run the parser with *)

(** A registry that knows a handful of module names. *)
Definition some_modules (name : string) : bool :=
  existsb (String.eqb name)
    ["command"; "shell"; "script"; "copy"; "file"; "ping"; "ec2"].

(** Where the first [=] of a token is. *)
Fixpoint cut_at_eq (key s : string) : option (string * string) :=
  match s with
  | EmptyString => None
  | String c s' =>
      if Ascii.eqb c "="%char then Some (key, s')
      else cut_at_eq (key +:+ String c "") s'
  end.

(** Modelled from the spec: the Key-Value Tokenizer
    ([ansible.parsing.splitter.parse_kv], which is not among the sources).
    In raw mode the entire text is preserved as a single raw-parameters
    value, under the key [_raw_params] of the spec's examples; otherwise
    the whitespace-separated [key=value] tokens are parsed into a mapping.
    The spec leaves quoting to the tokenizer and says nothing of a token
    without [=]: values are kept as written and such a token is skipped. *)
Definition tokenize (text : string) (raw_mode : bool) : dict :=
  if raw_mode then {[ "_raw_params" := VStr text ]}
  else
    foldl (fun (acc : dict) tok =>
             match cut_at_eq "" tok with
             | Some (k, v) => <[k := VStr v]> acc
             | None => acc
             end) ∅ (split str_space text).

(** The parser of a 64-bit interpreter over that registry and tokenizer,
    on a record whose strings are byte strings, walking a dictionary in
    the order of [map_to_list]. *)
Definition run_parse (task_ds : loc) : M (value * loc * value) :=
  parse str_space maxint64 some_modules tokenize map_to_list task_ds.


(** The same, walking a dictionary in the opposite order. *)
Definition run_parse_rev (task_ds : loc) : M (value * loc * value) :=
  parse str_space maxint64 some_modules tokenize
    (fun d => reverse (map_to_list d)) task_ds.


(** ** Task records to run the parser on

    Each is a store whose first object is the record. *)

(** [{action: "shell echo hi"}] *)
Definition task_action_shell : heap :=
  [ {[ "action" := VStr "shell echo hi" ]} ].

(** [{local_action: "copy src=a dest=b"}] *)
Definition task_local_copy : heap :=
  [ {[ "local_action" := VStr "copy src=a dest=b" ]} ].


(** [{action: "copy a=b", local_action: "copy a=b"}] *)
Definition task_both : heap :=
  [ <["action" := VStr "copy a=b"]> {[ "local_action" := VStr "copy a=b" ]} ].

(** [{action: {}, local_action: "copy a=b"}] *)
Definition task_both_empty_action : heap :=
  [ <["action" := VDict 1]> {[ "local_action" := VStr "copy a=b" ]}; ∅ ].

(** [{action: {module: None}, local_action: "copy a=b"}] *)
Definition task_both_null_module : heap :=
  [ <["action" := VDict 1]> {[ "local_action" := VStr "copy a=b" ]};
    {[ "module" := VNone ]} ].

(** [{action: 5, local_action: "copy a=b"}] *)
Definition task_both_int_action : heap :=
  [ <["action" := VInt 5]> {[ "local_action" := VStr "copy a=b" ]} ].





(** [{action: {module: "copy", args: {src: "a", dest: "b"}}}] *)
Definition task_action_mapping : heap :=
  [ {[ "action" := VDict 1 ]};
    <["module" := VStr "copy"]> {[ "args" := VDict 2 ]};
    <["src" := VStr "a"]> {[ "dest" := VStr "b" ]} ].

(** [{copy: "a=b", file: "c=d"}] *)
Definition task_two_modules : heap :=
  [ <["copy" := VStr "a=b"]> {[ "file" := VStr "c=d" ]} ].

(** [{copy: 5, file: 7}] *)
Definition task_two_modules_int : heap :=
  [ <["copy" := VInt 5]> {[ "file" := VInt 7 ]} ].

(** [{action: "copy a=b", file: "c=d"}] *)
Definition task_action_and_module : heap :=
  [ <["action" := VStr "copy a=b"]> {[ "file" := VStr "c=d" ]} ].

(** [{name: "say hello"}] *)
Definition task_no_action : heap :=
  [ {[ "name" := VStr "say hello" ]} ].

(** [{copy: "k1=v1", args: {k1: "default", k2: "default2"}}] *)
Definition task_copy_defaults : heap :=
  [ <["copy" := VStr "k1=v1"]> {[ "args" := VDict 1 ]};
    <["k1" := VStr "default"]> {[ "k2" := VStr "default2" ]} ].


(** [{action: ""}] *)
Definition task_empty_action : heap :=
  [ {[ "action" := VStr "" ]} ].

(** [{copy: {args: "x"}}] *)
Definition task_args_string : heap :=
  [ {[ "copy" := VDict 1 ]}; {[ "args" := VStr "x" ]} ].



(** [{action: None}] *)
Definition task_action_none : heap :=
  [ {[ "action" := VNone ]} ].

(** [{copy: "a=b", args: "x"}] *)
Definition task_args_text : heap :=
  [ <["copy" := VStr "a=b"]> {[ "args" := VStr "x" ]} ].

(** [{ping: None}] *)
Definition task_ping : heap :=
  [ {[ "ping" := VNone ]} ].

(** [{copy: "src=a dest=b"}] *)
Definition task_copy_string : heap :=
  [ {[ "copy" := VStr "src=a dest=b" ]} ].



(** [{copy: 2 ** 64}] *)
Definition task_copy_long : heap :=
  [ {[ "copy" := VInt (2 ^ 64) ]} ].

(** ** What a computation may touch *)

(** [tidy own need m]: run from a store whose objects from index [n] on
    are the caller's to write, with the object [need] (if any) among
    them, [m] leaves the [n] objects before them as they were, frees
    nothing, and the object [own] of what it returns (if any) is again
    one from index [n] on. *)
Definition tidy {A} (own : A -> option loc) (need : option loc) (m : M A)
  : Prop :=
  forall n h,
    n <= length h ->
    (forall l, need = Some l -> n <= l < length h) ->
    take n (m h).2 = take n h /\
    length h <= length (m h).2 /\
    forall a l, (m h).1 = Ret a -> own a = Some l -> n <= l < length (m h).2.

Definition nothing {A} : A -> option loc := fun _ => None.
Definition its_args {A} (p : A * loc) : option loc := Some p.2.

(** ** What normalization yields, read off the store *)

(** The items that [if x: final_args.update(x)] writes when it does not
    raise: none for a false value, the contents for a dictionary. *)
Definition items_of (h : heap) (x : value) : option dict :=
  match x with
  | VNone => Some ∅
  | VBool b => if b then None else Some ∅
  | VInt z => if Z.eqb z 0 then Some ∅ else None
  | VStr s => if String.eqb s "" then Some ∅ else None
  | VDict l => h !! l
  end.

(** A mapping with its [args] wrapper, if it has one, taken off once. *)
Definition unwrapped (h : heap) (m : dict) : option dict :=
  match m !! "args" with
  | Some w => items_of h w
  | None => Some m
  end.

(** The operation and the parameters that normalizing [thing] yields:
    with the operation name [action] known, a mapping is taken as it is,
    a string is tokenized and [None] gives no parameters; with no name
    known ([action] is [None]), a mapping gives its [module] field and
    the rest (or nothing when it has no such field), and a string its
    first token and the tokens of the rest. *)
Definition structural_params (is_space : ascii -> bool)
  (parse_kv : string -> bool -> dict)
  (h : heap) (action thing : value) : option (value * dict) :=
  let raw a := py_in a ["command"; "shell"; "script"] in
  if is_not_none action then
    match thing with
    | VDict l => m ← h !! l; src ← unwrapped h m; Some (action, src)
    | VStr s => src ← unwrapped h (parse_kv s (raw action)); Some (action, src)
    | VNone => Some (action, ∅)
    | VBool _ | VInt _ => None
    end
  else
    match thing with
    | VDict l =>
        m ← h !! l;
        match m !! "module" with
        | Some a => src ← unwrapped h (delete "module" m); Some (a, src)
        | None => Some (VNone, ∅)
        end
    | VStr s =>
        match split is_space s with
        | x :: rest =>
            src ← unwrapped h (parse_kv (join rest) (raw (VStr x)));
            Some (VStr x, src)
        | [] => None
        end
    | VNone | VBool _ | VInt _ => None
    end.


(** The shared defaults of a record: the items of its [args]. *)
Definition defaults (h : heap) (rec : dict) : option dict :=
  match rec !! "args" with
  | Some x => items_of h x
  | None => Some ∅
  end.

(** The three places a record names its operation in. *)
Inductive form :=
| Action
| LocalAction
| Module (name : string).

Definition known (module_loader : string -> bool) (item : string) : bool :=
  module_loader item || String.eqb item "meta".

(** [rec] names its operation in the form [f] and nowhere else, with
    [thing] the value it gives there. *)
Definition sole_form (module_loader : string -> bool)
  (rec : dict) (f : form) (thing : value) : Prop :=
  (forall k, known module_loader k = true -> is_Some (rec !! k) ->
             f = Module k) /\
  match f with
  | Action => rec !! "action" = Some thing /\ rec !! "local_action" = None
  | LocalAction =>
      rec !! "local_action" = Some thing /\ rec !! "action" = None
  | Module name =>
      rec !! name = Some thing /\ known module_loader name = true /\
      rec !! "action" = None /\ rec !! "local_action" = None
  end.

Definition action_of (f : form) : value :=
  match f with Module name => VStr name | Action | LocalAction => VNone end.

Definition delegate_of (f : form) : value :=
  match f with
  | LocalAction => VStr "localhost"
  | Action | Module _ => VNone
  end.

(** The value of an [action] key that determines no operation: a mapping
    with no [module] field, or with [None] there and parameters that can
    be merged. *)
Definition idle (h : heap) (thing : value) : Prop :=
  exists l m,
    thing = VDict l /\ h !! l = Some m /\
    (m !! "module" = None \/
     (m !! "module" = Some VNone /\
      is_Some (unwrapped h (delete "module" m)))).


Definition its_locals (st : locals) : option loc := Some (args st).

(** What the handling of shell makes of an operation and its parameters. *)
Definition final_action (a : value) : value :=
  if py_eq_str a "shell" then VStr "command" else a.

Definition final_params (a : value) (params : dict) : dict :=
  if py_eq_str a "shell" then <["_uses_shell" := VBool true]> params
  else params.

(** [m] run from [h] returns the operation [a], the parameters [params]
    and [d] as [delegate_to]. *)
Definition returns (m : M (value * loc * value)) (h : heap)
  (a : value) (params : dict) (d : value) : Prop :=
  exists fa h', m h = (Ret (a, fa, d), h') /\ h' !! fa = Some params.

(** [m] run from [h] raises [e]. *)
Definition raises {A} (m : M A) (h : heap) (e : exn) : Prop :=
  (m h).1 = Raise e.

(** ** Tokens, and the errors of a run *)

(** A string with no whitespace in it; one that is all whitespace. *)
Fixpoint no_space (is_space : ascii -> bool) (s : string) : bool :=
  match s with
  | EmptyString => true
  | String c s' => negb (is_space c) && no_space is_space s'
  end.

Fixpoint all_space (is_space : ascii -> bool) (s : string) : bool :=
  match s with
  | EmptyString => true
  | String c s' => is_space c && all_space is_space s'
  end.

(** What [str.split()] gives: a string that is not empty and has no
    whitespace in it. *)
Definition token (is_space : ascii -> bool) (s : string) : bool :=
  negb (String.eqb s "") && no_space is_space s.

(** The values that normalization refuses: under the key of a known
    operation a boolean or a number, under [action] and [local_action]
    also [None]. *)
Definition refused (f : form) (thing : value) : bool :=
  match thing with
  | VBool _ | VInt _ => true
  | VNone => match f with Module _ => false | Action | LocalAction => true end
  | VStr _ | VDict _ => false
  end.

(** What [if x: final_args.update(x)] raises for a value that is true and
    is no dictionary. *)
Definition update_error (x : value) : option exn :=
  match x with
  | VStr s => if String.eqb s "" then None else Some ValueError
  | VBool b => if b then Some TypeError else None
  | VInt z => if Z.eqb z 0 then None else Some TypeError
  | VNone | VDict _ => None
  end.

(** The values whose type the parser prints in an error: those that
    are neither a string nor a dictionary. *)
Definition printed (thing : value) : bool :=
  match thing with
  | VNone | VBool _ | VInt _ => true
  | VStr _ | VDict _ => false
  end.

(** The errors that the parser raises itself, with the record. *)
Definition parser_error (maxint : Z) (task_ds : loc) (e : exn) : Prop :=
  exists msg,
    e = AnsibleParserError msg task_ds /\
    (msg = "action and local_action are mutually exclusive" \/
     msg = "conflicting action statements" \/
     msg = "no action detected in task" \/
     exists thing,
       printed thing = true /\
       msg = "unexpected parameter type in action: "
             +:+ type_repr maxint thing).

(** Those, and the ones that come out of the operations it uses. *)
Definition expected_error (maxint : Z) (task_ds : loc) (e : exn) : Prop :=
  parser_error maxint task_ds e \/
  e = IndexError \/ e = TypeError \/ e = ValueError \/ e = DanglingRef.

(** [m] raises only errors of [P]. *)
Definition may_raise {A} (P : exn -> Prop) (m : M A) : Prop :=
  forall h e, (m h).1 = Raise e -> P e.

(** The dictionary of what [parse] returns. *)
Definition its_result (r : value * loc * value) : option loc := Some r.1.2.

(** * Properties *)

(** ** Running a computation step by step *)

Lemma bind_ret {A B} (m : M A) (k : A -> M B) h a h' :
  m h = (Ret a, h') -> bind m k h = k a h'.
Proof. intros E. unfold bind. by rewrite E. Qed.

Lemma bind_raise {A B} (m : M A) (k : A -> M B) h e h' :
  m h = (Raise e, h') -> bind m k h = (Raise e, h').
Proof. intros E. unfold bind. by rewrite E. Qed.

Lemma bind_assoc {A B C} (m : M A) (k : A -> M B) (k' : B -> M C) h :
  bind (bind m k) k' h = bind m (fun a => bind (k a) k') h.
Proof. unfold bind. destruct (m h) as [[a|e] h1]; done. Qed.

Lemma bind_cong {A B} (m : M A) (k k' : A -> M B) h :
  (forall a h', m h = (Ret a, h') -> k a h' = k' a h') ->
  bind m k h = bind m k' h.
Proof. intros E. unfold bind. destruct (m h) as [[a|e] h1]; auto. Qed.

Lemma bind_first {A B} (m m' : M A) (k : A -> M B) h :
  m h = m' h -> bind m k h = bind m' k h.
Proof. intros E. unfold bind. by rewrite E. Qed.

Lemma deref_at l d h : h !! l = Some d -> deref l h = (Ret d, h).
Proof. intros E. unfold deref. by rewrite E. Qed.

(** ** The store before a call stays as it was *)

Section Tidy.
Context {A B : Type}.

Lemma tidy_ret (own : A -> option loc) need (a : A) :
  (forall l, own a = Some l -> need = Some l) ->
  tidy own need (ret a).
Proof.
  intros Hown n h Hn Hneed. simpl. split_and!; try done.
  intros a' l [= <-] Hl. auto.
Qed.

Lemma tidy_ret_nothing need (a : A) : tidy nothing need (ret a).
Proof. apply tidy_ret. unfold nothing. done. Qed.

Lemma tidy_raise (own : A -> option loc) need e :
  tidy own need (raise e).
Proof. intros n h Hn Hneed. simpl. split_and!; done. Qed.

(** The continuation writes what the computation itself could write. *)
Lemma tidy_bind_keep (own : B -> option loc) need
    (m : M A) (k : A -> M B) :
  tidy nothing need m ->
  (forall a, tidy own need (k a)) ->
  tidy own need (bind m k).
Proof.
  intros Hm Hk n h Hn Hneed. destruct (Hm n h Hn Hneed) as (Ht & Hlen & _).
  unfold bind. destruct (m h) as [[a|e] h1]; simpl in *; [|done].
  destruct (Hk a n h1) as (Ht' & Hlen' & Hown); [lia| |].
  { intros l Hl. specialize (Hneed l Hl). lia. }
  split_and!; [congruence|lia|done].
Qed.

(** The continuation writes what the computation returned. *)
Lemma tidy_bind_own (own : B -> option loc) (own1 : A -> option loc) need
    (m : M A) (k : A -> M B) :
  tidy own1 need m ->
  (forall a, tidy own (own1 a) (k a)) ->
  tidy own need (bind m k).
Proof.
  intros Hm Hk n h Hn Hneed. destruct (Hm n h Hn Hneed) as (Ht & Hlen & Ho).
  unfold bind. destruct (m h) as [[a|e] h1]; simpl in *; [|done].
  destruct (Hk a n h1) as (Ht' & Hlen' & Hown); [lia|by eauto|].
  split_and!; [congruence|lia|done].
Qed.

Lemma tidy_forget (own : A -> option loc) need (m : M A) :
  tidy own need m -> tidy nothing need m.
Proof.
  intros Hm n h Hn Hneed. destruct (Hm n h Hn Hneed) as (? & ? & _).
  unfold nothing. split_and!; done.
Qed.

Lemma tidy_more (own : A -> option loc) need (m : M A) :
  tidy own None m -> tidy own need m.
Proof. intros Hm n h Hn Hneed. apply Hm; done. Qed.
End Tidy.

Lemma tidy_deref need l : tidy nothing need (deref l).
Proof.
  intros n h Hn Hneed. unfold deref, nothing.
  destruct (_ !! _); simpl; split_and!; done.
Qed.

Lemma tidy_alloc need d : tidy Some need (alloc d).
Proof.
  intros n h Hn Hneed. unfold alloc. cbn [fst snd].
  rewrite length_app. simpl. split_and!; [by apply take_app_le|lia|].
  intros a l [= <-] [= <-]. lia.
Qed.

Lemma tidy_store l d : tidy nothing (Some l) (store l d).
Proof.
  intros n h Hn Hneed. unfold nothing, store. cbn [fst snd].
  rewrite length_insert. split_and!; [|done..].
  apply take_insert_ge. by apply Hneed.
Qed.

Lemma tidy_alloc_nothing need d : tidy nothing need (alloc d).
Proof. eapply tidy_forget, tidy_alloc. Qed.

Create HintDb tidy.
#[local] Hint Resolve tidy_deref tidy_raise tidy_ret_nothing
  tidy_alloc_nothing tidy_store : tidy.

(** A tactic for the straight-line code below: it walks the binds and
    closes every step that a lemma of the database covers. *)
Ltac tidy_walk :=
  repeat first
    [ solve [auto with tidy]
    | lazymatch goal with
      | |- tidy _ _ (bind _ _) => apply tidy_bind_keep; [|intros ?]
      end ].

Lemma tidy_truth need v : tidy nothing need (truth v).
Proof. destruct v; simpl; tidy_walk. Qed.

Lemma tidy_getitem need k l : tidy nothing need (getitem k l).
Proof. unfold getitem. tidy_walk. destruct (_ !! _); tidy_walk. Qed.

Lemma tidy_get need k dflt l : tidy nothing need (get k dflt l).
Proof. unfold get. tidy_walk. Qed.

Lemma tidy_contains need k l : tidy nothing need (contains k l).
Proof. unfold contains. tidy_walk. Qed.

Lemma tidy_index {A} need (xs : list A) i : tidy nothing need (index xs i).
Proof. unfold index. destruct (_ !! _); tidy_walk. Qed.

Lemma tidy_copy need l : tidy Some need (copy l).
Proof.
  unfold copy. apply tidy_bind_keep; [apply tidy_deref|].
  intros d. apply tidy_alloc.
Qed.

Lemma tidy_copy_nothing need l : tidy nothing need (copy l).
Proof. eapply tidy_forget, tidy_copy. Qed.

Lemma tidy_setitem k v l : tidy nothing (Some l) (setitem k v l).
Proof. unfold setitem. tidy_walk. Qed.

Lemma tidy_delitem k l : tidy nothing (Some l) (delitem k l).
Proof. unfold delitem. tidy_walk. destruct (dict_has _ _); tidy_walk. Qed.

Lemma tidy_update l x : tidy nothing (Some l) (update l x).
Proof.
  destruct x; simpl; tidy_walk. destruct (String.eqb s ""); tidy_walk.
Qed.

#[local] Hint Resolve tidy_truth tidy_getitem tidy_get tidy_contains
  tidy_index tidy_copy_nothing tidy_setitem tidy_delitem tidy_update : tidy.

Lemma tidy_update_if l x : tidy nothing (Some l) (update_if l x).
Proof. unfold update_if. tidy_walk. destruct a; tidy_walk. Qed.

#[local] Hint Resolve tidy_update_if : tidy.

Section Frame.
Variable is_space : ascii -> bool.
Variable maxint : Z.
Variable module_loader : string -> bool.
Variable parse_kv : string -> bool -> dict.
Variable iteritems : dict -> list (string * value).
Variable task_ds : loc.

Lemma tidy_split_module_string need s :
  tidy nothing need (_split_module_string is_space s).
Proof. unfold _split_module_string. destruct (Nat.ltb _ _); tidy_walk. Qed.

Lemma tidy_normalize_old_style_args need thing action :
  tidy nothing need (_normalize_old_style_args maxint parse_kv task_ds thing
      action).
Proof. destruct thing; simpl; tidy_walk. Qed.

(** [del args['module']] writes into the copy made just before. *)
Lemma tidy_normalize_new_style_args need thing :
  tidy nothing need (_normalize_new_style_args is_space maxint parse_kv task_ds
      thing).
Proof.
  pose proof tidy_split_module_string.
  destruct thing; simpl; tidy_walk.
  - destruct a. tidy_walk.
  - destruct a0; [|tidy_walk].
    apply tidy_bind_keep; [auto with tidy|intros act].
    eapply tidy_bind_own; [apply tidy_copy|]. intros args.
    tidy_walk.
Qed.

Lemma tidy_unwrap_args need args : tidy nothing need (unwrap_args args).
Proof.
  destruct args as [l|]; simpl; tidy_walk.
  destruct a; tidy_walk. destruct a; tidy_walk.
Qed.

(** The dictionary that [_normalize_parameters] fills and returns is a
    new one. *)
Lemma tidy_normalize_parameters need thing action additional_args :
  tidy its_args need
    (_normalize_parameters is_space maxint parse_kv task_ds thing action
        additional_args).
Proof.
  pose proof tidy_normalize_old_style_args.
  pose proof tidy_normalize_new_style_args.
  pose proof tidy_unwrap_args.
  apply tidy_more. unfold _normalize_parameters.
  eapply tidy_bind_own; [apply tidy_alloc|]. intros final_args.
  apply tidy_bind_keep; [auto with tidy|intros _].
  apply tidy_bind_keep;
    [destruct (is_not_none action); tidy_walk|intros [a args]].
  apply tidy_bind_keep; [auto with tidy|intros w].
  apply tidy_bind_keep; [auto with tidy|intros _].
  apply tidy_ret. by intros l [= <-].
Qed.

Lemma tidy_handle_shell_weirdness action args :
  tidy nothing (Some args) (_handle_shell_weirdness action args).
Proof.
  unfold _handle_shell_weirdness.
  destruct (negb _); tidy_walk. destruct (py_eq_str _ _); tidy_walk.
Qed.

Lemma tidy_parse_init :
  tidy (fun p => its_locals p.1) None (parse_init task_ds).
Proof.
  unfold parse_init.
  eapply tidy_bind_own; [apply tidy_alloc|]. intros args.
  apply tidy_bind_keep; [auto with tidy|intros dflt].
  apply tidy_bind_keep; [auto with tidy|intros additional_args].
  apply tidy_ret. by intros l [= <-].
Qed.

Lemma tidy_locals_of (d : value) (p : value * loc) :
  tidy its_locals (its_args p) (let '(a, args) := p in ret (Locals a args d)).
Proof. destruct p as [a' args]. apply tidy_ret. by intros l [= <-]. Qed.

Lemma tidy_parse_action additional_args st :
  tidy its_locals (its_locals st)
    (parse_action is_space maxint parse_kv task_ds additional_args st).
Proof.
  unfold parse_action.
  apply tidy_bind_keep; [auto with tidy|intros [|]].
  - apply tidy_bind_keep; [auto with tidy|intros thing].
    eapply tidy_bind_own; [apply tidy_normalize_parameters|].
    intros p. by apply tidy_locals_of.
  - by apply tidy_ret.
Qed.

Lemma tidy_parse_local_action additional_args st :
  tidy its_locals (its_locals st)
    (parse_local_action is_space maxint parse_kv task_ds additional_args st).
Proof.
  unfold parse_local_action.
  apply tidy_bind_keep; [auto with tidy|intros [|]].
  - destruct (is_not_none _); [apply tidy_raise|].
    apply tidy_bind_keep; [auto with tidy|intros thing].
    eapply tidy_bind_own; [apply tidy_normalize_parameters|].
    intros p. by apply tidy_locals_of.
  - by apply tidy_ret.
Qed.

(** By induction on the items still to walk. *)
Lemma tidy_parse_items additional_args items : forall st,
  tidy its_locals (its_locals st)
    (parse_items is_space maxint module_loader parse_kv task_ds additional_args
        items st).
Proof.
  induction items as [|[item v] items IH]; intros st; simpl.
  - by apply tidy_ret.
  - destruct (_ || _); [|apply IH].
    destruct (is_not_none _); [apply tidy_raise|].
    eapply tidy_bind_own; [apply tidy_normalize_parameters|].
    intros [a args]. exact (IH (Locals a args (delegate_to st))).
Qed.

Lemma tidy_parse_scan additional_args st :
  tidy its_locals (its_locals st)
    (parse_scan is_space maxint module_loader parse_kv iteritems task_ds
        additional_args st).
Proof.
  unfold parse_scan. apply tidy_bind_keep; [auto with tidy|intros ds].
  apply tidy_parse_items.
Qed.

Lemma tidy_parse_finish st :
  tidy nothing (its_locals st) (parse_finish task_ds st).
Proof.
  unfold parse_finish. destruct (is_not_none _); [|apply tidy_raise].
  apply tidy_bind_keep; [apply tidy_handle_shell_weirdness|].
  intros [a args]. tidy_walk.
Qed.

Lemma tidy_parse_determine :
  tidy its_locals None
    (parse_determine is_space maxint module_loader parse_kv iteritems task_ds).
Proof.
  unfold parse_determine.
  eapply tidy_bind_own; [apply tidy_parse_init|]. intros [st aa]. simpl.
  eapply tidy_bind_own; [apply tidy_parse_action|]. intros st1.
  eapply tidy_bind_own; [apply tidy_parse_local_action|]. intros st2.
  apply tidy_parse_scan.
Qed.

Lemma tidy_parse :
  tidy nothing None (parse is_space maxint module_loader parse_kv iteritems
      task_ds).
Proof.
  unfold parse.
  eapply tidy_bind_own; [apply tidy_parse_init|]. intros [st aa]. simpl.
  eapply tidy_bind_own; [apply tidy_parse_action|]. intros st1.
  eapply tidy_bind_own; [apply tidy_parse_local_action|]. intros st2.
  eapply tidy_bind_own; [apply tidy_parse_scan|]. intros st3.
  apply tidy_parse_finish.
Qed.
End Frame.

(** A computation that needs no object of its caller's leaves the whole
    store it was run from in place, and only adds to it. *)
Lemma tidy_prefix {A} (own : A -> option loc) (m : M A) h :
  tidy own None m -> h `prefix_of` (m h).2.
Proof.
  intros Hm. destruct (Hm (length h) h) as (Ht & _); [lia|done|].
  rewrite (take_ge h) in Ht by lia.
  pose proof (prefix_take (m h).2 (length h)) as Hp. by rewrite Ht in Hp.
Qed.

Lemma prefix_lookup_Some (h h' : heap) l d :
  h `prefix_of` h' -> h !! l = Some d -> h' !! l = Some d.
Proof. intros [ext ->] E. by apply lookup_app_l_Some. Qed.

(** ** Objects of the store: the old ones and the ones added *)

Lemma lookup_new (h ext : heap) i : (h ++ ext) !! (length h + i) = ext !! i.
Proof. rewrite lookup_app_r by lia. f_equal. lia. Qed.

Lemma alloc_app d (h ext : heap) :
  alloc d (h ++ ext) = (Ret (length h + length ext), h ++ (ext ++ [d])).
Proof. unfold alloc. by rewrite length_app, <-app_assoc. Qed.

Lemma alloc_first d (h : heap) : alloc d h = (Ret (length h + 0), h ++ [d]).
Proof. unfold alloc. by rewrite Nat.add_0_r. Qed.

Lemma store_new l d (h ext : heap) :
  store (length h + l) d (h ++ ext) = (Ret tt, h ++ <[l := d]> ext).
Proof. unfold store. by rewrite insert_app_r. Qed.

Lemma deref_old l d (h ext : heap) :
  h !! l = Some d -> deref l (h ++ ext) = (Ret d, h ++ ext).
Proof. intros E. apply deref_at. by apply lookup_app_l_Some. Qed.

Lemma deref_new i d (h ext : heap) :
  ext !! i = Some d -> deref (length h + i) (h ++ ext) = (Ret d, h ++ ext).
Proof. intros E. apply deref_at. by rewrite lookup_new. Qed.

(** One step of a run: the first computation of a bind returns. *)
Ltac run_by tac :=
  lazymatch goal with
  | |- bind ?m ?k ?h = _ =>
      let E := fresh "E" in
      eassert (m h = (Ret _, _)) as E by tac;
      rewrite (bind_ret m k h _ _ E); clear E; cbv beta iota
  end.

Lemma dict_nonempty_false (d : dict) : dict_nonempty d = false -> d = ∅.
Proof.
  unfold dict_nonempty. destruct (map_to_list d) eqn:E; [|done].
  intros _. by apply map_to_list_empty_iff.
Qed.

Lemma items_of_app h ext x d :
  items_of h x = Some d -> items_of (h ++ ext) x = Some d.
Proof. destruct x; simpl; try done. apply lookup_app_l_Some. Qed.

Lemma unwrapped_app h ext m src :
  unwrapped h m = Some src -> unwrapped (h ++ ext) m = Some src.
Proof. unfold unwrapped. destruct (m !! "args"); [apply items_of_app|done]. Qed.

(** [if x: final_args.update(x)] writes the items of [x] over those of
    [final_args]. *)
Lemma update_if_run h fa x src d :
  items_of h x = Some src -> h !! fa = Some d ->
  update_if fa x h = (Ret tt, <[fa := src ∪ d]> h).
Proof.
  intros Hx Hfa. unfold update_if.
  assert (<[fa := ∅ ∪ d]> h = h) as Hid.
  { rewrite (left_id_L ∅ (∪)). by apply list_insert_id. }
  destruct x as [|[|]|z|s|l]; simpl in Hx |- *.
  - injection Hx as <-. by rewrite Hid.
  - done.
  - injection Hx as <-. by rewrite Hid.
  - unfold bind, ret. simpl. destruct (Z.eqb z 0); [|done].
    injection Hx as <-. by rewrite Hid.
  - unfold bind, ret. simpl. destruct (String.eqb s ""); [|done].
    injection Hx as <-. by rewrite Hid.
  - run_by ltac:(run_by ltac:(by apply deref_at); reflexivity).
    destruct (dict_nonempty src) eqn:Hne.
    + simpl. run_by ltac:(by apply deref_at).
      run_by ltac:(by apply deref_at). done.
    + apply dict_nonempty_false in Hne as ->. by rewrite Hid.
Qed.

(** [if args and 'args' in args: args = args['args']] on a dictionary. *)
Lemma unwrap_args_run h l m :
  h !! l = Some m ->
  unwrap_args (Some l) h = (Ret (default (VDict l) (m !! "args")), h).
Proof.
  intros Hl. unfold unwrap_args.
  run_by ltac:(simpl; run_by ltac:(by apply deref_at); reflexivity).
  destruct (dict_nonempty m) eqn:Hne.
  - unfold contains. rewrite bind_assoc.
    run_by ltac:(by apply deref_at). unfold ret at 1.
    rewrite (bind_ret _ _ _ (dict_has "args" m) h) by done.
    unfold dict_has, getitem.
    destruct (m !! "args") as [w|] eqn:Hw; [|done].
    run_by ltac:(by apply deref_at). by rewrite Hw.
  - apply dict_nonempty_false in Hne as ->. by rewrite lookup_empty.
Qed.

Section Runs.
Variable is_space : ascii -> bool.
Variable maxint : Z.
Variable module_loader : string -> bool.
Variable parse_kv : string -> bool -> dict.
Variable iteritems : dict -> list (string * value).
Hypothesis iteritems_perm : forall d, iteritems d ≡ₚ map_to_list d.
Variable task_ds : loc.

(** The start of [_normalize_parameters]: the new dictionary holds the
    additional arguments. *)
Ltac np_begin :=
  run_by ltac:(apply alloc_first);
  run_by ltac:(eapply update_if_run;
               [by apply items_of_app|by rewrite lookup_new]);
  rewrite insert_app_r, (right_id_L ∅ (∪)); cbn [insert list_insert].

(** The end of [_normalize_parameters], for a dictionary of arguments. *)
Lemma normalize_parameters_tail h dflt ext (a : value) la m src :
  (h ++ dflt :: ext) !! la = Some m ->
  unwrapped h m = Some src ->
  (args <- unwrap_args (Some la) ;;
   update_if (length h + 0) args ;;
   ret (a, length h + 0)) (h ++ dflt :: ext)
  = (Ret (a, length h + 0), h ++ (src ∪ dflt) :: ext).
Proof.
  intros Hla Hm.
  run_by ltac:(by apply unwrap_args_run).
  assert (items_of (h ++ dflt :: ext) (default (VDict la) (m !! "args"))
          = Some src) as Hw.
  { unfold unwrapped in Hm. destruct (m !! "args") as [w|]; simpl.
    - by apply items_of_app.
    - by injection Hm as <-. }
  run_by ltac:(eapply update_if_run; [exact Hw|by rewrite lookup_new]).
  by rewrite insert_app_r.
Qed.

(** The same, for no arguments. *)
Lemma normalize_parameters_tail_none h dflt ext (a : value) :
  (args <- unwrap_args None ;;
   update_if (length h + 0) args ;;
   ret (a, length h + 0)) (h ++ dflt :: ext)
  = (Ret (a, length h + 0), h ++ (∅ ∪ dflt) :: ext).
Proof.
  run_by ltac:(reflexivity).
  run_by ltac:(eapply update_if_run; [done|by rewrite lookup_new]).
  by rewrite insert_app_r.
Qed.

Lemma split_module_string_run s x rest h :
  split is_space s = x :: rest ->
  _split_module_string is_space s h = (Ret (x, join rest), h).
Proof.
  intros E. unfold _split_module_string. rewrite E.
  destruct rest as [|y rest]; done.
Qed.

(** [_normalize_parameters] returns a new dictionary, in which the
    normalized parameters lie over the additional ones. *)
Lemma normalize_parameters_run h thing act additional_args dflt a src :
  items_of h additional_args = Some dflt ->
  structural_params is_space parse_kv h act thing = Some (a, src) ->
  exists ext,
    _normalize_parameters is_space maxint parse_kv task_ds thing act
        additional_args h
    = (Ret (a, length h), h ++ (src ∪ dflt) :: ext).
Proof.
  intros Hdflt Hs. unfold _normalize_parameters.
  rewrite <-(Nat.add_0_r (length h)).
  unfold structural_params in Hs.
  destruct (is_not_none act) eqn:Hact.
  - destruct thing as [|b|z|s|l]; simpl in Hs; try done.
    + injection Hs as <- <-. exists [].
      np_begin.
      simpl. rewrite bind_assoc.
      run_by ltac:(reflexivity). run_by ltac:(reflexivity).
      apply normalize_parameters_tail_none.
    + destruct (unwrapped h _) as [src'|] eqn:Hu; simplify_eq/=.
      eexists.
      np_begin.
      rewrite !bind_assoc. run_by ltac:(apply alloc_app).
      run_by ltac:(reflexivity). run_by ltac:(reflexivity). simpl.
      eapply normalize_parameters_tail; [by rewrite lookup_new|done].
    + destruct (h !! l) as [m|] eqn:Hl; simplify_eq/=.
      destruct (unwrapped h m) as [src'|] eqn:Hu; simplify_eq/=.
      exists [].
      np_begin.
      rewrite bind_assoc.
      run_by ltac:(reflexivity). run_by ltac:(reflexivity).
      eapply normalize_parameters_tail; [by apply lookup_app_l_Some|done].
  - destruct thing as [|b|z|s|l]; simpl in Hs; try done.
    + destruct (split is_space s) as [|x rest] eqn:Hsp; [done|].
      destruct (unwrapped h _) as [src'|] eqn:Hu; simplify_eq/=.
      eexists.
      np_begin.
      rewrite !bind_assoc.
      run_by ltac:(by apply split_module_string_run).
      rewrite bind_assoc. run_by ltac:(apply alloc_app).
      run_by ltac:(reflexivity). simpl.
      eapply normalize_parameters_tail; [by rewrite lookup_new|done].
    + destruct (h !! l) as [m|] eqn:Hl; simplify_eq/=.
      destruct (m !! "module") as [a'|] eqn:Hmod.
      * destruct (unwrapped h _) as [src'|] eqn:Hu; simplify_eq/=.
        eexists.
        np_begin.
        rewrite bind_assoc. unfold copy at 1. rewrite bind_assoc.
        run_by ltac:(by apply deref_old). run_by ltac:(apply alloc_app).
        rewrite bind_assoc. unfold contains. rewrite bind_assoc. simpl.
        run_by ltac:(by apply deref_new). run_by ltac:(reflexivity).
        unfold dict_has. rewrite Hmod.
        rewrite bind_assoc. unfold getitem. rewrite bind_assoc.
        run_by ltac:(by apply deref_new). rewrite Hmod.
        run_by ltac:(reflexivity).
        rewrite bind_assoc. unfold copy. rewrite bind_assoc.
        run_by ltac:(by apply deref_new). run_by ltac:(apply alloc_app).
        rewrite bind_assoc. unfold delitem. rewrite bind_assoc. simpl.
        run_by ltac:(by apply deref_new). unfold dict_has. rewrite Hmod.
        run_by ltac:(apply store_new). run_by ltac:(reflexivity). simpl.
        eapply normalize_parameters_tail; [by rewrite lookup_new|done].
      * injection Hs as <- <-. eexists.
        np_begin.
        rewrite bind_assoc. unfold copy at 1. rewrite bind_assoc.
        run_by ltac:(by apply deref_old). run_by ltac:(apply alloc_app).
        rewrite bind_assoc. unfold contains. rewrite bind_assoc. simpl.
        run_by ltac:(by apply deref_new). run_by ltac:(reflexivity).
        unfold dict_has. rewrite Hmod.
        run_by ltac:(reflexivity). apply normalize_parameters_tail_none.
Qed.

(** *** The steps of [parse] *)

Lemma parse_init_run h rec :
  h !! task_ds = Some rec ->
  parse_init task_ds h
  = (Ret (Locals VNone (length h) VNone,
          default (VDict (S (length h))) (rec !! "args")),
     h ++ [∅; ∅]).
Proof.
  intros Hrec. unfold parse_init.
  run_by ltac:(apply alloc_first). run_by ltac:(apply alloc_app).
  unfold get. rewrite bind_assoc. run_by ltac:(by apply deref_old).
  simpl. by rewrite Nat.add_0_r, Nat.add_1_r.
Qed.

(** The additional arguments of a record are its shared defaults. *)
Lemma defaults_items h rec dflt :
  defaults h rec = Some dflt ->
  items_of (h ++ [∅; ∅]) (default (VDict (S (length h))) (rec !! "args"))
  = Some dflt.
Proof.
  unfold defaults. destruct (rec !! "args") as [x|]; simpl.
  - apply items_of_app.
  - intros [= <-]. by rewrite <-Nat.add_1_r, lookup_new.
Qed.

Lemma contains_run h k rec :
  h !! task_ds = Some rec ->
  contains k task_ds h = (Ret (dict_has k rec), h).
Proof. intros E. unfold contains. by run_by ltac:(by apply deref_at). Qed.

(** Items that name no operation are passed over. *)
Lemma parse_items_skip aa items st h :
  (forall k v, (k, v) ∈ items -> known module_loader k = false) ->
  parse_items is_space maxint module_loader parse_kv task_ds aa items st h =
      (Ret st, h).
Proof.
  induction items as [|[k v] items IH]; intros Hno; simpl; [done|].
  pose proof (Hno k v ltac:(left)) as Hk. unfold known in Hk. rewrite Hk.
  apply IH. intros k' v' Hin. apply (Hno k' v'). by right.
Qed.

(** An item that names an operation, once one is determined, is an error. *)
Lemma parse_items_conflict aa items st h k v :
  is_not_none (action st) = true ->
  (k, v) ∈ items -> known module_loader k = true ->
  parse_items is_space maxint module_loader parse_kv task_ds aa items st h
  = (Raise (AnsibleParserError "conflicting action statements" task_ds), h).
Proof.
  intros Hst Hin Hk. induction items as [|[k' v'] items IH]; simpl.
  - by apply elem_of_nil in Hin.
  - destruct (_ || _) eqn:Hk'; [by rewrite Hst|].
    apply IH. apply elem_of_cons in Hin as [[= -> ->]|Hin]; [|done].
    unfold known in Hk. congruence.
Qed.

(** The items of a dictionary, walked in any order, are its entries. *)
Lemma iteritems_lookup (d : dict) k v :
  (k, v) ∈ iteritems d <-> d !! k = Some v.
Proof. by rewrite iteritems_perm, elem_of_map_to_list. Qed.

Lemma iteritems_split (d : dict) k v :
  d !! k = Some v ->
  exists pre post,
    iteritems d = pre ++ (k, v) :: post /\
    forall k' v', (k', v') ∈ pre ++ post -> k' <> k /\ d !! k' = Some v'.
Proof.
  intros Hk. apply iteritems_lookup in Hk as Hin.
  apply list_elem_of_split in Hin as (pre & post & E).
  exists pre, post. split; [done|]. intros k' v' Hin.
  assert (NoDup (iteritems d).*1) as Hnd.
  { rewrite iteritems_perm. apply NoDup_fst_map_to_list. }
  rewrite E, fmap_app, fmap_cons in Hnd.
  apply NoDup_app in Hnd as (Hpre & Hdisj & Hpost). simpl in *.
  apply NoDup_cons in Hpost as [Hk' _].
  split.
  - intros ->. apply elem_of_app in Hin as [Hin|Hin].
    + apply (Hdisj k); [|left]. apply list_elem_of_fmap. by exists (k, v').
    + apply Hk'. apply list_elem_of_fmap. by exists (k, v').
  - apply iteritems_lookup. rewrite E.
    apply elem_of_app in Hin as [Hin|Hin]; set_solver.
Qed.

Lemma parse_items_skip_app aa pre items st h :
  (forall k v, (k, v) ∈ pre -> known module_loader k = false) ->
  parse_items is_space maxint module_loader parse_kv task_ds aa (pre ++ items)
      st h
  = parse_items is_space maxint module_loader parse_kv task_ds aa items st h.
Proof.
  induction pre as [|[k v] pre IH]; intros Hno; simpl; [done|].
  pose proof (Hno k v ltac:(left)) as Hk. unfold known in Hk. rewrite Hk.
  apply IH. intros k' v' Hin. apply (Hno k' v'). by right.
Qed.

(** What [_normalize_parameters] leaves of the store it was run from. *)
Lemma normalize_parameters_keeps thing act aa h r h' l d :
  _normalize_parameters is_space maxint parse_kv task_ds thing act aa h = (r,
      h') ->
  h !! l = Some d -> h' !! l = Some d.
Proof.
  intros E. apply prefix_lookup_Some.
  pose proof (tidy_prefix _ _ h
                (tidy_normalize_parameters is_space maxint parse_kv task_ds None
                    thing act aa))
    as Hp.
  by rewrite E in Hp.
Qed.

(** A record that names its operation in one form: [parse] normalizes the
    value given there, and finishes. *)
Lemma parse_sole_form h rec f thing :
  h !! task_ds = Some rec ->
  sole_form module_loader rec f thing ->
  parse is_space maxint module_loader parse_kv iteritems task_ds h
  = (let* (a, fa) :=
       _normalize_parameters is_space maxint parse_kv task_ds thing (action_of
           f)
         (default (VDict (S (length h))) (rec !! "args")) in
     parse_finish task_ds (Locals a fa (delegate_of f))) (h ++ [∅; ∅]).
Proof.
  intros Hrec [Hno Hf]. unfold parse.
  run_by ltac:(by apply parse_init_run).
  set (aa := default _ _). set (H := h ++ [∅; ∅]).
  assert (H !! task_ds = Some rec) as HrecH by by apply lookup_app_l_Some.
  assert ((forall k, f <> Module k) ->
          forall k' v', (k', v') ∈ iteritems rec ->
                        known module_loader k' = false) as Hnone.
  { intros Hfk k' v' Hin. apply iteritems_lookup in Hin.
    destruct (known module_loader k') eqn:Hkn; [|done].
    specialize (Hno k' Hkn ltac:(by eexists)). by destruct (Hfk k'). }
  destruct f as [| |name]; simpl in Hf |- *.
  - destruct Hf as [Ha Hl]. unfold parse_action.
    rewrite bind_assoc. run_by ltac:(by apply contains_run).
    unfold dict_has. rewrite Ha. unfold getitem. rewrite !bind_assoc.
    run_by ltac:(by apply deref_at). rewrite Ha.
    run_by ltac:(reflexivity). rewrite bind_assoc.
    apply bind_cong. intros [a fa] H' E.
    run_by ltac:(reflexivity).
    pose proof (normalize_parameters_keeps _ _ _ _ _ _ _ _ E HrecH) as HrecH'.
    unfold parse_local_action. rewrite bind_assoc.
    run_by ltac:(by apply contains_run). unfold dict_has. rewrite Hl.
    run_by ltac:(reflexivity). unfold parse_scan. rewrite bind_assoc.
    run_by ltac:(by apply deref_at).
    run_by ltac:(apply parse_items_skip; by apply Hnone). done.
  - destruct Hf as [Hl Ha]. unfold parse_action.
    rewrite bind_assoc. run_by ltac:(by apply contains_run).
    unfold dict_has. rewrite Ha. run_by ltac:(reflexivity).
    unfold parse_local_action. rewrite bind_assoc.
    run_by ltac:(by apply contains_run). unfold dict_has. rewrite Hl.
    simpl. unfold get. rewrite !bind_assoc.
    run_by ltac:(by apply deref_at). rewrite Hl.
    run_by ltac:(reflexivity). simpl. rewrite bind_assoc.
    apply bind_cong. intros [a fa] H' E.
    run_by ltac:(reflexivity).
    pose proof (normalize_parameters_keeps _ _ _ _ _ _ _ _ E HrecH) as HrecH'.
    unfold parse_scan. rewrite bind_assoc.
    run_by ltac:(by apply deref_at).
    run_by ltac:(apply parse_items_skip; by apply Hnone). done.
  - destruct Hf as (Hname & Hknown & Ha & Hl). unfold parse_action.
    rewrite bind_assoc. run_by ltac:(by apply contains_run).
    unfold dict_has. rewrite Ha. run_by ltac:(reflexivity).
    unfold parse_local_action. rewrite bind_assoc.
    run_by ltac:(by apply contains_run). unfold dict_has. rewrite Hl.
    run_by ltac:(reflexivity). unfold parse_scan. rewrite bind_assoc.
    run_by ltac:(by apply deref_at).
    destruct (iteritems_split rec name thing Hname)
      as (pre & post & -> & Hrest).
    assert (forall k v, (k, v) ∈ pre ++ post ->
                        known module_loader k = false) as Hskip.
    { intros k v Hin. destruct (Hrest k v Hin) as [Hne Hk].
      destruct (known module_loader k) eqn:Hkn; [|done].
      specialize (Hno k Hkn ltac:(by eexists)). congruence. }
    erewrite bind_first; cycle 1.
    { rewrite parse_items_skip_app
        by (intros k v Hin; apply (Hskip k v), elem_of_app; by left).
      simpl. unfold known in Hknown. rewrite Hknown. simpl. reflexivity. }
    rewrite bind_assoc. apply bind_cong. intros [a fa] H' E.
    run_by ltac:(apply parse_items_skip;
                 intros k v Hin; apply (Hskip k v), elem_of_app; by right).
    done.
Qed.

Lemma structural_params_app h ext act thing r :
  structural_params is_space parse_kv h act thing = Some r ->
  structural_params is_space parse_kv (h ++ ext) act thing = Some r.
Proof.
  unfold structural_params.
  destruct (is_not_none act), thing as [|b|z|s|l]; simpl; try done.
  - destruct (unwrapped h _) eqn:Hu; [|done].
    by rewrite (unwrapped_app _ ext _ _ Hu).
  - destruct (h !! l) as [m|] eqn:Hl; [|done].
    rewrite (lookup_app_l_Some _ ext _ _ Hl). simpl.
    destruct (unwrapped h _) eqn:Hu; [|done].
    by rewrite (unwrapped_app _ ext _ _ Hu).
  - destruct (split is_space s); [done|].
    destruct (unwrapped h _) eqn:Hu; [|done].
    by rewrite (unwrapped_app _ ext _ _ Hu).
  - destruct (h !! l) as [m|] eqn:Hl; [|done].
    rewrite (lookup_app_l_Some _ ext _ _ Hl). simpl.
    destruct (m !! "module"); [|done].
    destruct (unwrapped h _) eqn:Hu; [|done].
    by rewrite (unwrapped_app _ ext _ _ Hu).
Qed.

(** The last step: the check passes and shell is handled. *)
Lemma parse_finish_run h (a : value) fa d params :
  h !! fa = Some params -> a <> VNone ->
  returns (parse_finish task_ds (Locals a fa d)) h
    (final_action a) (final_params a params) d.
Proof.
  intros Hfa Ha. unfold returns, parse_finish, _handle_shell_weirdness.
  unfold final_action, final_params. simpl.
  assert (is_not_none a = true) as -> by by destruct a.
  destruct (py_eq_str a "shell") eqn:Hsh; simpl.
  - exists fa, (<[fa := <["_uses_shell" := VBool true]> params]> h). split.
    + unfold setitem. rewrite !bind_assoc.
      run_by ltac:(by apply deref_at). by run_by ltac:(reflexivity).
    + apply list_lookup_insert_eq. by eapply lookup_lt_Some.
  - exists fa, h. split; [|done].
    by destruct (py_eq_str a "command").
Qed.

(** A record that names its operation in one form, and whose value there
    and shared defaults can be normalized: [parse] returns the normalized
    parameters laid over the defaults, after the handling of shell. *)
Lemma parse_form_returns h rec f thing dflt a src :
  h !! task_ds = Some rec ->
  sole_form module_loader rec f thing ->
  defaults h rec = Some dflt ->
  structural_params is_space parse_kv h (action_of f) thing = Some (a, src) ->
  a <> VNone ->
  returns (parse is_space maxint module_loader parse_kv iteritems task_ds) h
    (final_action a) (final_params a (src ∪ dflt)) (delegate_of f).
Proof.
  intros Hrec Hf Hd Hs Ha.
  destruct (normalize_parameters_run (h ++ [∅; ∅]) thing (action_of f)
              (default (VDict (S (length h))) (rec !! "args")) dflt a src)
    as [ext E].
  { by apply defaults_items. }
  { by apply structural_params_app. }
  destruct (parse_finish_run ((h ++ [∅; ∅]) ++ (src ∪ dflt) :: ext)
              a (length (h ++ [∅; ∅])) (delegate_of f) (src ∪ dflt))
    as (fa & h' & Hrun & Hfa); [by apply list_lookup_middle|done|].
  exists fa, h'. split; [|done].
  rewrite (parse_sole_form h rec f thing Hrec Hf).
  by rewrite (bind_ret _ _ _ _ _ E).
Qed.

Lemma parse_unfold h :
  parse is_space maxint module_loader parse_kv iteritems task_ds h
  = (let* (st, additional_args) := parse_init task_ds in
     st <- parse_action is_space maxint parse_kv task_ds additional_args st ;;
     st <- parse_local_action is_space maxint parse_kv task_ds additional_args
         st ;;
     st <- parse_scan is_space maxint module_loader parse_kv iteritems task_ds
             additional_args st ;;
     parse_finish task_ds st) h.
Proof. reflexivity. Qed.

Lemma parse_determine_finish h :
  parse is_space maxint module_loader parse_kv iteritems task_ds h
  = (st <- parse_determine is_space maxint module_loader parse_kv iteritems
      task_ds ;;
     parse_finish task_ds st) h.
Proof.
  unfold parse, parse_determine. rewrite bind_assoc.
  apply bind_cong. intros [st aa] h' _. rewrite bind_assoc.
  apply bind_cong. intros st1 h1 _. by rewrite bind_assoc.
Qed.

Lemma bind_ret_inv {A B} (m : M A) (k : A -> M B) h b h' :
  bind m k h = (Ret b, h') ->
  exists a h1, m h = (Ret a, h1) /\ k a h1 = (Ret b, h').
Proof.
  unfold bind. destruct (m h) as [[a|e] h1]; [|done]. by exists a, h1.
Qed.

(** With the operation name known, [_normalize_parameters] returns it. *)
Lemma normalize_parameters_action thing act aa h a fa h' :
  is_not_none act = true ->
  _normalize_parameters is_space maxint parse_kv task_ds thing act aa h = (Ret
      (a, fa), h') ->
  a = act.
Proof.
  intros Hact E. unfold _normalize_parameters in E. rewrite Hact in E.
  apply bind_ret_inv in E as (final_args & h1 & _ & E).
  apply bind_ret_inv in E as ([] & h2 & _ & E).
  rewrite bind_assoc in E.
  apply bind_ret_inv in E as (args & h3 & _ & E).
  apply bind_ret_inv in E as ([a' args'] & h4 & [= <- <-] & E).
  apply bind_ret_inv in E as (w & h5 & _ & E).
  apply bind_ret_inv in E as ([] & h6 & _ & E).
  by injection E as <- _ _.
Qed.

Lemma tidy_parse_action_reads aa st :
  tidy nothing None (parse_action is_space maxint parse_kv task_ds aa st).
Proof.
  pose proof (tidy_normalize_parameters is_space maxint parse_kv task_ds).
  unfold parse_action. apply tidy_bind_keep; [auto with tidy|intros [|]].
  - apply tidy_bind_keep; [auto with tidy|intros thing].
    apply tidy_bind_keep; [eapply tidy_forget; eauto|intros [a args]].
    tidy_walk.
  - tidy_walk.
Qed.

Lemma tidy_parse_local_action_reads aa st :
  tidy nothing None (parse_local_action is_space maxint parse_kv task_ds aa st).
Proof.
  pose proof (tidy_normalize_parameters is_space maxint parse_kv task_ds).
  unfold parse_local_action.
  apply tidy_bind_keep; [auto with tidy|intros [|]]; [|tidy_walk].
  destruct (is_not_none _); [tidy_walk|].
  apply tidy_bind_keep; [auto with tidy|intros thing].
  apply tidy_bind_keep; [eapply tidy_forget; eauto|intros [a args]].
  tidy_walk.
Qed.

Lemma keeps_record {A} (m : M A) h r h' rec :
  tidy nothing None m -> m h = (r, h') ->
  h !! task_ds = Some rec -> h' !! task_ds = Some rec.
Proof.
  intros Hm E. apply prefix_lookup_Some.
  pose proof (tidy_prefix _ m h Hm) as Hp. by rewrite E in Hp.
Qed.
End Runs.

(** ** A record whose operation is determined from one value *)

Section Determined.
Variable is_space : ascii -> bool.
Variable maxint : Z.
Variable module_loader : string -> bool.
Variable parse_kv : string -> bool -> dict.
Variable iteritems : dict -> list (string * value).
Hypothesis iteritems_perm : forall d, iteritems d ≡ₚ map_to_list d.
Variable task_ds : loc.



Lemma idle_structural h thing :
  idle h thing ->
  exists src0,
    structural_params is_space parse_kv h VNone thing = Some (VNone, src0).
Proof.
  intros (l & m & -> & Hl & Hm). unfold structural_params. simpl.
  rewrite Hl. simpl. destruct Hm as [-> | [-> [src0 ->]]]; by eexists.
Qed.

(** A record with both keys, whose [action] determines no operation:
    [parse] goes on to [local_action] and returns what it gives. *)
Lemma parse_idle_action_returns h rec thing0 thing dflt a src :
  h !! task_ds = Some rec ->
  rec !! "action" = Some thing0 ->
  idle h thing0 ->
  rec !! "local_action" = Some thing ->
  (forall k, is_Some (rec !! k) -> known module_loader k = false) ->
  defaults h rec = Some dflt ->
  structural_params is_space parse_kv h VNone thing = Some (a, src) ->
  a <> VNone ->
  returns (parse is_space maxint module_loader parse_kv iteritems task_ds) h
    (final_action a) (final_params a (src ∪ dflt)) (VStr "localhost").
Proof.
  intros Hrec Ha Hidle Hl Hno Hd Hs Hsome.
  destruct (idle_structural h thing0 Hidle) as [src0 Hs0].
  set (H := h ++ [∅; ∅]).
  set (aa := default (VDict (S (length h))) (rec !! "args")).
  assert (items_of H aa = Some dflt) as Haa by by apply defaults_items.
  destruct (normalize_parameters_run is_space maxint parse_kv task_ds
              H thing0 VNone aa dflt VNone src0 Haa)
    as [ext0 E0]; [by apply structural_params_app|].
  set (H1 := H ++ (src0 ∪ dflt) :: ext0) in *.
  destruct (normalize_parameters_run is_space maxint parse_kv task_ds
              H1 thing VNone aa dflt a src)
    as [ext1 E1].
  { by apply items_of_app. }
  { by apply structural_params_app, structural_params_app. }
  set (H2 := H1 ++ (src ∪ dflt) :: ext1) in *.
  assert (H !! task_ds = Some rec) as HrecH by by apply lookup_app_l_Some.
  assert (H1 !! task_ds = Some rec) as HrecH1 by by apply lookup_app_l_Some.
  assert (H2 !! task_ds = Some rec) as HrecH2 by by apply lookup_app_l_Some.
  destruct (parse_finish_run task_ds H2 a (length H1) (VStr "localhost")
              (src ∪ dflt)) as (fa & h' & Hrun & Hfa);
    [by apply list_lookup_middle|done|].
  exists fa, h'. split; [|done].
  rewrite (parse_unfold is_space maxint module_loader parse_kv iteritems
             task_ds).
  run_by ltac:(by apply parse_init_run).
  fold H. fold aa.
  unfold parse_action. rewrite bind_assoc.
  run_by ltac:(by apply contains_run). unfold dict_has. rewrite Ha.
  unfold getitem. rewrite !bind_assoc.
  run_by ltac:(by apply deref_at). rewrite Ha.
  run_by ltac:(reflexivity). rewrite bind_assoc.
  run_by ltac:(exact E0). run_by ltac:(reflexivity).
  unfold parse_local_action. rewrite bind_assoc.
  run_by ltac:(by apply contains_run). unfold dict_has. rewrite Hl.
  simpl. unfold get. rewrite !bind_assoc.
  run_by ltac:(by apply deref_at). rewrite Hl.
  run_by ltac:(reflexivity). simpl. rewrite bind_assoc.
  run_by ltac:(exact E1). run_by ltac:(reflexivity).
  unfold parse_scan. rewrite bind_assoc.
  run_by ltac:(by apply deref_at).
  run_by ltac:(apply parse_items_skip; intros k v Hin; apply Hno; exists v;
               by apply (iteritems_lookup iteritems iteritems_perm)).
  exact Hrun.
Qed.

End Determined.

(** ** The properties the specification states *)

Lemma py_eq_str_true a name : py_eq_str a name = true <-> a = VStr name.
Proof.
  destruct a; simpl; try (split; [done|by intros [=]]).
  rewrite String.eqb_eq. split; [by intros ->|by intros [= ->]].
Qed.

Lemma py_eq_str_false a name : a <> VStr name -> py_eq_str a name = false.
Proof.
  intros Ha. destruct (py_eq_str a name) eqn:E; [|done].
  by apply py_eq_str_true in E.
Qed.

Lemma raises_intro {A} (m : M A) h e h' : m h = (Raise e, h') -> raises m h e.
Proof. intros E. unfold raises. by rewrite E. Qed.


Section Claims.
Variable is_space : ascii -> bool.
Variable maxint : Z.
Variable module_loader : string -> bool.
Variable parse_kv : string -> bool -> dict.
Variable iteritems : dict -> list (string * value).
Hypothesis iteritems_perm : forall d, iteritems d ≡ₚ map_to_list d.
Variable task_ds : loc.

Local Abbreviation parse :=
  (parse is_space maxint module_loader parse_kv iteritems task_ds).
Local Abbreviation parse_determine :=
  (parse_determine is_space maxint module_loader parse_kv iteritems task_ds).

(** C5: a record with no [action] key, no [local_action] key and no key
    that the registry knows or that is [meta] makes [parse] fail with the
    error "no action detected in task", raised with the record. *)
Theorem no_action_detected h rec :
  h !! task_ds = Some rec ->
  rec !! "action" = None ->
  rec !! "local_action" = None ->
  (forall k, is_Some (rec !! k) -> known module_loader k = false) ->
  raises parse h (AnsibleParserError "no action detected in task" task_ds).
Proof.
  intros Hrec Ha Hl Hno. eapply raises_intro. rewrite parse_unfold.
  run_by ltac:(by apply parse_init_run).
  assert ((h ++ [∅; ∅]) !! task_ds = Some rec) as HrecH
    by by apply lookup_app_l_Some.
  unfold parse_action. rewrite bind_assoc.
  run_by ltac:(by apply contains_run). unfold dict_has. rewrite Ha.
  run_by ltac:(reflexivity).
  unfold parse_local_action. rewrite bind_assoc.
  run_by ltac:(by apply contains_run). unfold dict_has. rewrite Hl.
  run_by ltac:(reflexivity).
  unfold parse_scan. rewrite bind_assoc. run_by ltac:(by apply deref_at).
  run_by ltac:(apply parse_items_skip; intros k v Hin; apply Hno; exists v;
               by apply (iteritems_lookup iteritems iteritems_perm)).
  done.
Qed.

(** C6: when the operation that the steps before the last determine is
    [shell], [parse] returns [command] and the normalized parameters with
    [_uses_shell] bound to true added; for any other operation (so for
    [command]) it returns the name and the normalized parameters as they
    are. *)
Theorem shell_becomes_command h st H :
  parse_determine h = (Ret st, H) ->
  exists params,
    H !! args st = Some params /\
    (action st = VStr "shell" ->
     returns parse h (VStr "command")
       (<["_uses_shell" := VBool true]> params) (delegate_to st)) /\
    (action st <> VStr "shell" -> action st <> VNone ->
     returns parse h (action st) params (delegate_to st)).
Proof.
  intros E.
  destruct (tidy_parse_determine is_space maxint module_loader parse_kv
      iteritems task_ds
              0 h ltac:(lia) ltac:(done)) as (_ & _ & Hown).
  rewrite E in Hown. destruct (Hown st (args st) eq_refl eq_refl) as [_ Hlt].
  apply lookup_lt_is_Some in Hlt as [params Hparams].
  exists params. split; [done|].
  destruct st as [a fa d]. simpl in *.
  pose proof (parse_finish_run task_ds H a fa d params Hparams) as Hfin.
  unfold returns in *.
  split.
  - intros ->. destruct (Hfin ltac:(done)) as (fa' & h' & Hrun & Hfa').
    exists fa', h'. split; [|done].
    rewrite parse_determine_finish. by rewrite (bind_ret _ _ _ _ _ E).
  - intros Hsh Hnone. destruct (Hfin Hnone) as (fa' & h' & Hrun & Hfa').
    unfold final_action, final_params in *.
    rewrite (py_eq_str_false _ _ Hsh) in *.
    exists fa', h'. split; [|done].
    rewrite parse_determine_finish. by rewrite (bind_ret _ _ _ _ _ E).
Qed.

(** C9: whatever [parse] returns or raises, every object of the store it
    was run from (the record, its [args], every nested mapping) is after
    the call what it was before, the store having only grown; and so it
    is for [_normalize_new_style_args], which removes the [module] key
    from a copy. *)
Theorem parse_leaves_store h :
  h `prefix_of` (parse h).2 /\
  forall thing,
    h `prefix_of` (_normalize_new_style_args is_space maxint parse_kv task_ds
        thing h).2.
Proof.
  split.
  - eapply tidy_prefix, tidy_parse.
  - intros thing. eapply tidy_prefix, tidy_normalize_new_style_args.
Qed.


(** C2: a record with both an [action] and a [local_action] key is not
    refused when the value of [action] is a mapping that determines no
    operation (it has no [module] field, or [None] there): [parse] takes
    no notice of the [action] key, returns what [local_action] gives,
    with ["localhost"] as [delegate_to], and raises nothing. *)
Theorem action_and_local_action_accepted
    h rec l m thing dflt a src :
  h !! task_ds = Some rec ->
  rec !! "action" = Some (VDict l) ->
  rec !! "local_action" = Some thing ->
  (forall k, is_Some (rec !! k) -> known module_loader k = false) ->
  h !! l = Some m ->
  m !! "module" = None \/
  (m !! "module" = Some VNone /\ is_Some (unwrapped h (delete "module" m))) ->
  defaults h rec = Some dflt ->
  structural_params is_space parse_kv h VNone thing = Some (a, src) ->
  a <> VNone ->
  returns parse h
    (final_action a) (final_params a (src ∪ dflt)) (VStr "localhost") /\
  forall e, ~ raises parse h e.
Proof.
  intros Hrec Ha Hl Hno Hm Hmod Hd Hs Hsome.
  assert (returns parse h (final_action a) (final_params a (src ∪ dflt))
            (VStr "localhost")) as Hret.
  { apply (parse_idle_action_returns is_space maxint module_loader parse_kv
             iteritems iteritems_perm task_ds h rec (VDict l) thing);
      try done.
    by exists l, m. }
  split; [done|].
  intros e He. destruct Hret as (fa & h' & E & _).
  unfold raises in He. by rewrite E in He.
Qed.


(** C4 (as amended): take a record whose steps for [action] and
    [local_action] return, and the first of its keys, in the order they
    are walked, that the registry knows or that is [meta].  When an
    operation was determined from [action] or [local_action], or when a
    later key matches too and the value of the first one is normalized
    without an error, [parse] fails with the error "conflicting action
    statements", raised with the record. *)
Theorem conflicting_action_statements
    h rec st0 additional_args h0 st1 h1 st2 h2 pre k1 v1 post :
  h !! task_ds = Some rec ->
  parse_init task_ds h = (Ret (st0, additional_args), h0) ->
  parse_action is_space maxint parse_kv task_ds additional_args st0 h0 = (Ret
      st1, h1) ->
  parse_local_action is_space maxint parse_kv task_ds additional_args st1 h1
  = (Ret st2, h2) ->
  iteritems rec = pre ++ (k1, v1) :: post ->
  (forall k v, (k, v) ∈ pre -> known module_loader k = false) ->
  known module_loader k1 = true ->
  action st2 <> VNone \/
  ((exists k2 v2, (k2, v2) ∈ post /\ known module_loader k2 = true) /\
   exists r h3,
     _normalize_parameters is_space maxint parse_kv task_ds v1 (VStr k1)
         additional_args h2
     = (Ret r, h3)) ->
  raises parse h
    (AnsibleParserError "conflicting action statements" task_ds).
Proof.
  intros Hrec Hinit Haction Hlocal Hiter Hpre Hk1 Hcase.
  assert (h2 !! task_ds = Some rec) as Hrec2.
  { eapply keeps_record; [apply tidy_parse_local_action_reads|done|].
    eapply keeps_record; [apply tidy_parse_action_reads|done|].
    eapply keeps_record; [eapply tidy_forget, tidy_parse_init|done|done]. }
  assert (forall K : locals -> M (value * loc * value),
            parse h
            = (st <- parse_items is_space maxint module_loader parse_kv task_ds
                       additional_args ((k1, v1) :: post) st2 ;;
               K st) h2 ->
            raises parse h
              (AnsibleParserError "conflicting action statements" task_ds))
    as Hgoal.
  { intros K E. unfold raises. rewrite E. clear E.
    simpl. unfold known in Hk1. rewrite Hk1.
    destruct (is_not_none (action st2)) eqn:Hst2; [done|].
    destruct Hcase as [Hsome | [(k2 & v2 & Hin & Hk2) ([a fa] & h3 & Hnp)]].
    { by destruct (action st2). }
    eapply (raises_intro (bind _ _)).
    rewrite !bind_assoc. run_by ltac:(exact Hnp).
    apply normalize_parameters_action in Hnp as ->; [|done].
    erewrite bind_first; cycle 1.
    { by eapply parse_items_conflict. }
    done. }
  apply (Hgoal (parse_finish task_ds)). rewrite parse_unfold.
  run_by ltac:(exact Hinit). run_by ltac:(exact Haction).
  run_by ltac:(exact Hlocal).
  unfold parse_scan. rewrite bind_assoc. run_by ltac:(by apply deref_at).
  rewrite Hiter. apply bind_first. by apply parse_items_skip_app.
Qed.


(** C8: an [action] whose string has no token (it is empty, or all
    whitespace) makes [parse] raise [IndexError], which is not the
    parser's own error. *)
Theorem empty_action_raises_IndexError h rec s dflt :
  h !! task_ds = Some rec ->
  rec !! "action" = Some (VStr s) ->
  split is_space s = [] ->
  defaults h rec = Some dflt ->
  raises parse h IndexError.
Proof.
  intros Hrec Ha Hsplit Hd. eapply raises_intro. rewrite parse_unfold.
  run_by ltac:(by apply parse_init_run).
  assert ((h ++ [∅; ∅]) !! task_ds = Some rec) as Hrec0
    by by apply lookup_app_l_Some.
  unfold parse_action. rewrite bind_assoc.
  run_by ltac:(by apply contains_run). unfold dict_has. rewrite Ha.
  unfold getitem. rewrite !bind_assoc.
  run_by ltac:(by apply deref_at). rewrite Ha.
  run_by ltac:(reflexivity). unfold _normalize_parameters.
  rewrite !bind_assoc. run_by ltac:(reflexivity).
  rewrite !bind_assoc.
  run_by ltac:(eapply update_if_run;
               [by apply items_of_app, defaults_items
               |by apply list_lookup_middle]).
  simpl. unfold _split_module_string. rewrite Hsplit. done.
Qed.


End Claims.

(** ** The properties on the task records above *)

Lemma walk_any (d : dict) : map_to_list d ≡ₚ map_to_list d.
Proof. reflexivity. Defined.

(** In a record with one key, a known key is that key. *)
Lemma sole_key (k0 : string) (v0 : value) (f : form) :
  known some_modules k0 = false ->
  forall k, known some_modules k = true ->
            is_Some (({[ k0 := v0 ]} : dict) !! k) -> f = Module k.
Proof.
  intros Hk0 k Hk [v Hv]. apply lookup_singleton_Some in Hv as [<- _].
  congruence.
Defined.



(** In a record with the keys [action] and [local_action], no key is
    that of a known operation. *)
Lemma both_keys_unknown (v1 v2 : value) k :
  is_Some ((<["action" := v1]> {[ "local_action" := v2 ]} : dict) !! k) ->
  known some_modules k = false.
Proof.
  intros [v Hv].
  apply lookup_insert_Some in Hv as [[<- _] | [_ Hv]]; [done|].
  by apply lookup_singleton_Some in Hv as [<- _].
Defined.

(** C2, on [{action: {}, local_action: "copy a=b"}]: the record is parsed
    as if it had no [action] key. *)
Lemma action_and_local_action_accepted_witness :
  returns (run_parse 0) task_both_empty_action
    (VStr "copy") {[ "a" := VStr "b" ]} (VStr "localhost") /\
  forall e, ~ raises (run_parse 0) task_both_empty_action e.
Proof.
  assert ({[ "a" := VStr "b" ]}
          = final_params (VStr "copy") (({[ "a" := VStr "b" ]} : dict) ∪ ∅))
    as -> by (vm_compute; reflexivity).
  apply (action_and_local_action_accepted str_space maxint64 some_modules
           tokenize map_to_list walk_any 0 task_both_empty_action
           (<["action" := VDict 1]> {[ "local_action" := VStr "copy a=b" ]})
           1 ∅ (VStr "copy a=b") ∅ (VStr "copy") {[ "a" := VStr "b" ]}).
  - reflexivity.
  - vm_compute; reflexivity.
  - vm_compute; reflexivity.
  - apply both_keys_unknown.
  - reflexivity.
  - left. vm_compute; reflexivity.
  - vm_compute; reflexivity.
  - vm_compute; reflexivity.
  - discriminate.
Defined.

(** The same on [{action: {module: None}, local_action: "copy a=b"}];
    on [{action: 5, local_action: "copy a=b"}] the error is the one for
    the type of the [action] value, and on a record without [action]
    the [local_action] gives the same as in the records above. *)
Lemma action_and_local_action_on_records :
  returns (run_parse 0) task_both_null_module
    (VStr "copy") {[ "a" := VStr "b" ]} (VStr "localhost") /\
  returns (run_parse 0) [ {[ "local_action" := VStr "copy a=b" ]} ]
    (VStr "copy") {[ "a" := VStr "b" ]} (VStr "localhost") /\
  raises (run_parse 0) task_both_int_action
    (AnsibleParserError
       "unexpected parameter type in action: <type 'int'>" 0).
Proof.
  split_and!.
  - eexists _, _. split; [reflexivity|]. vm_compute; reflexivity.
  - eexists _, _. split; [reflexivity|]. vm_compute; reflexivity.
  - vm_compute. reflexivity.
Qed.



(** C4, on [{copy: "a=b", file: "c=d"}], where [copy] is walked first. *)
Lemma conflicting_action_statements_witness :
  raises (run_parse 0) task_two_modules
    (AnsibleParserError "conflicting action statements" 0).
Proof.
  eapply (conflicting_action_statements str_space maxint64 some_modules tokenize
      map_to_list 0
            task_two_modules _ _ _ _ _ _ _ _
            [] "copy" (VStr "a=b") [("file", VStr "c=d")]).
  - reflexivity.
  - reflexivity.
  - reflexivity.
  - reflexivity.
  - vm_compute; reflexivity.
  - intros k v Hin. by apply elem_of_nil in Hin.
  - reflexivity.
  - right. split.
    + exists "file", (VStr "c=d"). split; [by left|reflexivity].
    + eexists _, _. reflexivity.
Defined.

(** C4 as stated fails on [{copy: 5, file: 7}]: whichever of the two
    keys is walked first, its value is of no type that can be normalized,
    and that is the error. *)
Lemma conflicting_action_statements_counterexample :
  raises (run_parse 0) task_two_modules_int
    (AnsibleParserError
       "unexpected parameter type in action: <type 'int'>" 0) /\
  raises (run_parse_rev 0) task_two_modules_int
    (AnsibleParserError
       "unexpected parameter type in action: <type 'int'>" 0) /\
  ~ raises (run_parse 0) task_two_modules_int
      (AnsibleParserError "conflicting action statements" 0).
Proof.
  split_and!.
  - vm_compute. reflexivity.
  - vm_compute. reflexivity.
  - intros E. vm_compute in E. discriminate.
Qed.

(** The same error on [{action: "copy a=b", file: "c=d"}], where the
    operation is determined from [action] before [file] is met. *)
Lemma conflict_after_action :
  raises (run_parse 0) task_action_and_module
    (AnsibleParserError "conflicting action statements" 0).
Proof. vm_compute. reflexivity. Qed.

(** C5, on [{name: "say hello"}]. *)
Lemma no_action_detected_witness :
  raises (run_parse 0) task_no_action
    (AnsibleParserError "no action detected in task" 0).
Proof.
  apply (no_action_detected str_space maxint64 some_modules tokenize map_to_list
      walk_any 0
           task_no_action {[ "name" := VStr "say hello" ]}).
  - reflexivity.
  - vm_compute; reflexivity.
  - vm_compute; reflexivity.
  - intros k [v Hv]. apply lookup_singleton_Some in Hv as [<- _].
    reflexivity.
Defined.

(** C6, on [{action: "shell echo hi"}]: the operation determined is
    [shell], with the raw parameters. *)
Lemma shell_becomes_command_witness :
  returns (run_parse 0) task_action_shell
    (VStr "command")
    (<["_uses_shell" := VBool true]> {[ "_raw_params" := VStr "echo hi" ]})
    VNone.
Proof.
  destruct (shell_becomes_command str_space maxint64 some_modules tokenize
      map_to_list 0
              task_action_shell (Locals (VStr "shell") 3 VNone)
              [ {[ "action" := VStr "shell echo hi" ]}; ∅; ∅;
                {[ "_raw_params" := VStr "echo hi" ]};
                {[ "_raw_params" := VStr "echo hi" ]} ])
    as (params & Hparams & Hshell & _).
  - vm_compute; reflexivity.
  - change (Some {[ "_raw_params" := VStr "echo hi" ]} = Some params)
      in Hparams.
    injection Hparams as <-.
    exact (Hshell eq_refl).
Defined.



(** C8, on [{action: ""}]. *)
Lemma empty_action_raises_IndexError_witness :
  raises (run_parse 0) task_empty_action IndexError.
Proof.
  apply (empty_action_raises_IndexError str_space maxint64 some_modules tokenize
      map_to_list 0
           task_empty_action {[ "action" := VStr "" ]} "" ∅).
  - reflexivity.
  - vm_compute; reflexivity.
  - reflexivity.
  - vm_compute; reflexivity.
Defined.

(** The same on an [action] of blanks, and [ValueError] on
    [{copy: {args: "x"}}], where the value under [args] is no mapping. *)
Lemma other_errors_on_records :
  raises (run_parse 0) [ {[ "action" := VStr "   " ]} ] IndexError /\
  raises (run_parse 0) task_args_string ValueError.
Proof. split; vm_compute; reflexivity. Qed.


(** * More properties of the parser *)

(** ** The tokens of a string *)

Lemma append_cons c (s t : string) : String c s +:+ t = String c (s +:+ t).
Proof. reflexivity. Qed.

Lemma append_empty_r (s : string) : s +:+ "" = s.
Proof.
  induction s as [|c s IH]; [done|]. by rewrite append_cons, IH.
Qed.

Lemma append_step (w : string) c (t : string) :
  (w +:+ String c "") +:+ t = w +:+ String c t.
Proof.
  induction w as [|c' w IH]; [done|]. by rewrite !append_cons, IH.
Qed.

Lemma append_not_empty (w : string) c : w +:+ String c "" <> "".
Proof. by destruct w. Qed.

Section Tokens.
Variable is_space : ascii -> bool.

Lemma no_space_snoc (w : string) c :
  no_space is_space w = true -> is_space c = false ->
  no_space is_space (w +:+ String c "") = true.
Proof.
  intros Hw Hc. induction w as [|c' w IH].
  - simpl. by rewrite Hc.
  - rewrite append_cons. simpl in *.
    apply andb_true_iff in Hw as [-> Hw]. by apply IH.
Qed.

Lemma flush_token (w : string) :
  no_space is_space w = true -> Forall (fun t => token is_space t = true) (flush
      w).
Proof.
  intros Hw. destruct w as [|c w]; [by constructor|].
  repeat constructor. unfold token. by rewrite Hw.
Qed.

(** Every string that [split] gives is a token. *)
Lemma split_from_tokens (s : string) : forall w,
  no_space is_space w = true -> Forall (fun t => token is_space t = true)
      (split_from is_space w s).
Proof.
  induction s as [|c s IH]; intros w Hw; simpl.
  - by apply flush_token.
  - destruct (is_space c) eqn:Hc.
    + apply Forall_app. split; [by apply flush_token|by apply IH].
    + apply IH. by apply no_space_snoc.
Qed.

(** [split] gives nothing exactly for a string that is all whitespace. *)
Lemma split_from_nil (s : string) : forall w,
  split_from is_space w s = [] <-> w = "" /\ all_space is_space s = true.
Proof.
  induction s as [|c s IH]; intros w; simpl.
  - destruct w; simpl; split; try done. by intros [? _].
  - destruct (is_space c) eqn:Hc; simpl.
    + rewrite app_nil, IH. destruct w; simpl; split; try done.
      * by intros (_ & _ & ?).
      * by intros (? & _).
      * by intros (? & _).
    + rewrite IH. split; [|by intros [_ ?]].
      intros [Hw _]. by apply append_not_empty in Hw.
Qed.

(** Characters that are no whitespace go to the word being read. *)
Lemma split_from_word (t : string) : forall w s,
  no_space is_space t = true -> split_from is_space w (t +:+ s) = split_from
      is_space (w +:+ t) s.
Proof.
  induction t as [|c t IH]; intros w s Ht.
  - by rewrite append_empty_r.
  - rewrite append_cons. simpl in *.
    apply andb_true_iff in Ht as [Hc Ht].
    apply negb_true_iff in Hc. rewrite Hc.
    rewrite IH by done. by rewrite append_step.
Qed.

(** Round trip: the tokens of tokens joined by spaces are those tokens,
    the space that [join] puts between them being whitespace. *)
Lemma split_join (toks : list string) :
  is_space " " = true ->
  Forall (fun t => token is_space t = true) toks ->
  split is_space (join toks) = toks.
Proof.
  intros Hsp. unfold split, join.
  induction toks as [|x toks IH]; intros Htoks; [done|].
  apply Forall_cons in Htoks as [Hx Htoks].
  apply andb_true_iff in Hx as [Hne Hx].
  assert (flush x = [x]) as Hflush.
  { destruct x; [done|done]. }
  destruct toks as [|y toks].
  - simpl. rewrite <-(append_empty_r x) at 1.
    rewrite split_from_word by done. simpl. done.
  - change (String.concat " " (x :: y :: toks))
      with (x +:+ String " " (String.concat " " (y :: toks))).
    rewrite split_from_word by done. cbn [split_from String.append].
    rewrite Hsp.
    change ("" +:+ x) with x. rewrite Hflush, IH by done. done.
Qed.

(** X1: whatever the whitespace [is_space] of the string's type is,
    [_split_module_string] raises [IndexError] exactly on a string that
    is all whitespace (the empty one too); on any other it returns
    the first token, which is not empty and has no whitespace in it, and
    the other tokens joined by single spaces.  The store stays as it is. *)
Theorem split_module_string_total s h :
  if all_space is_space s then _split_module_string is_space s h = (Raise
      IndexError, h)
  else exists x rest,
      split is_space s = x :: rest /\ token is_space x = true /\
      _split_module_string is_space s h = (Ret (x, join rest), h).
Proof.
  destruct (all_space is_space s) eqn:Hs.
  - assert (split is_space s = []) as Hnil by by apply split_from_nil.
    unfold _split_module_string. by rewrite Hnil.
  - destruct (split is_space s) as [|x rest] eqn:Hsplit.
    { apply split_from_nil in Hsplit as [_ Hall]. congruence. }
    exists x, rest. split_and!; [done| |by apply split_module_string_run].
    pose proof (split_from_tokens s "" eq_refl) as Htoks.
    unfold split in Hsplit. rewrite Hsplit in Htoks.
    by apply Forall_cons in Htoks as [? _].
Qed.

(** X2: the name that [_split_module_string] returns, followed by the
    tokens of the text it returns, are the tokens of its argument: the
    text loses only the whitespace between them.  The space that [join]
    puts between the tokens is whitespace in every type of string. *)
Theorem split_module_string_tokens s h x rest h' :
  is_space " " = true ->
  _split_module_string is_space s h = (Ret (x, rest), h') ->
  x :: split is_space rest = split is_space s.
Proof.
  intros Hsp E. unfold _split_module_string in E.
  pose proof (split_from_tokens s "" eq_refl) as Htoks. fold (split is_space s)
      in Htoks.
  destruct (split is_space s) as [|y toks] eqn:Hsplit.
  { simpl in E. discriminate. }
  apply Forall_cons in Htoks as [_ Htoks].
  destruct toks as [|z toks]; simpl in E; injection E as <- <- <-.
  - done.
  - f_equal. change (drop 1 (y :: z :: toks)) with (z :: toks).
    by apply split_join.
Qed.

End Tokens.

(** X3: what [_handle_shell_weirdness] returns, it returns again when
    applied to it, with the store as it left it. *)
Theorem handle_shell_weirdness_idempotent (a : value) args h a' args' h' :
  _handle_shell_weirdness a args h = (Ret (a', args'), h') ->
  _handle_shell_weirdness a' args' h' = (Ret (a', args'), h').
Proof.
  unfold _handle_shell_weirdness. simpl.
  destruct (py_eq_str a "shell") eqn:Hsh; simpl.
  - intros E. apply bind_ret_inv in E as ([] & h1 & _ & E).
    by injection E as <- <- <-.
  - intros E.
    assert (a' = a /\ args' = args /\ h' = h) as (-> & -> & ->).
    { destruct (py_eq_str a "command"); by injection E. }
    by rewrite Hsh.
Qed.

(** ** What a run that returns went through *)

Lemma deref_ret_inv l h d h' :
  deref l h = (Ret d, h') -> h !! l = Some d /\ h' = h.
Proof. unfold deref. destruct (h !! l); [|done]. by intros [= <- <-]. Qed.

Lemma contains_ret_inv k l h b h' :
  contains k l h = (Ret b, h') ->
  exists d, h !! l = Some d /\ b = dict_has k d /\ h' = h.
Proof.
  intros E. apply bind_ret_inv in E as (d & h1 & E & [= <- <-]).
  apply deref_ret_inv in E as [? ->]. by exists d.
Qed.

Lemma final_action_not_shell (a : value) :
  a <> VNone -> final_action a <> VNone /\ final_action a <> VStr "shell".
Proof.
  intros Ha. unfold final_action.
  destruct (py_eq_str a "shell") eqn:Hsh; [done|].
  split; [done|]. intros ->. done.
Qed.

Section Returns.
Variable is_space : ascii -> bool.
Variable maxint : Z.
Variable module_loader : string -> bool.
Variable parse_kv : string -> bool -> dict.
Variable iteritems : dict -> list (string * value).
Variable task_ds : loc.

(** The last step returns what the handling of shell makes of the
    operation determined, which is not [None]. *)
Lemma parse_finish_ret_inv st h a fa d h' :
  parse_finish task_ds st h = (Ret (a, fa, d), h') ->
  action st <> VNone /\ a = final_action (action st) /\
  fa = args st /\ d = delegate_to st.
Proof.
  unfold parse_finish. destruct (is_not_none (action st)) eqn:Hst; [|done].
  intros E. apply bind_ret_inv in E as ([a' args'] & h1 & E & [= <- <- <-]).
  split; [by destruct (action st)|].
  unfold _handle_shell_weirdness, final_action in *. simpl in E.
  destruct (py_eq_str (action st) "shell"); simpl in E.
  - apply bind_ret_inv in E as ([] & h2 & _ & E). by injection E as <- <-.
  - by destruct (py_eq_str (action st) "command"); injection E as <- <-.
Qed.

Lemma parse_ret_inv h r h' :
  parse is_space maxint module_loader parse_kv iteritems task_ds h = (Ret r, h')
      ->
  exists st h1,
    parse_determine is_space maxint module_loader parse_kv iteritems task_ds h
    = (Ret st, h1) /\
    parse_finish task_ds st h1 = (Ret r, h').
Proof. rewrite parse_determine_finish. apply bind_ret_inv. Qed.

(** The walk keeps [delegate_to]. *)
Lemma parse_items_delegate aa items : forall st h st' h',
  parse_items is_space maxint module_loader parse_kv task_ds aa items st h =
      (Ret st', h') ->
  delegate_to st' = delegate_to st.
Proof.
  induction items as [|[k v] items IH]; intros st h st' h'; simpl.
  - by intros [= <- _].
  - destruct (_ || _); [|apply IH].
    destruct (is_not_none _); [done|]. intros E.
    apply bind_ret_inv in E as ([a fa] & h1 & _ & E).
    by apply IH in E.
Qed.

(** The steps before the last, on a record: what they return has
    ["localhost"] as [delegate_to] when the record has a [local_action]
    key, and [None] when it has none. *)
Lemma parse_determine_delegate h rec st h' :
  h !! task_ds = Some rec ->
  parse_determine is_space maxint module_loader parse_kv iteritems task_ds h =
      (Ret st, h') ->
  delegate_to st
  = if dict_has "local_action" rec then VStr "localhost" else VNone.
Proof.
  intros Hrec E. unfold parse_determine in E.
  rewrite (bind_ret _ _ _ _ _ (parse_init_run task_ds h rec Hrec)) in E.
  assert ((h ++ [∅; ∅]) !! task_ds = Some rec) as Hrec0
    by by apply lookup_app_l_Some.
  apply bind_ret_inv in E as (st1 & h1 & Hact & E).
  apply bind_ret_inv in E as (st2 & h2 & Hloc & E).
  pose proof (keeps_record task_ds _ _ _ _ rec
                (tidy_parse_action_reads is_space maxint parse_kv task_ds _ _)
                    Hact Hrec0)
    as Hrec1.
  assert (delegate_to st1 = VNone) as Hd1.
  { unfold parse_action in Hact.
    rewrite (bind_ret _ _ _ _ _ (contains_run task_ds _ "action" rec Hrec0))
      in Hact.
    destruct (dict_has "action" rec); [|by injection Hact as <- _].
    apply bind_ret_inv in Hact as (thing & h3 & _ & Hact).
    apply bind_ret_inv in Hact as ([a fa] & h4 & _ & Hact).
    by injection Hact as <- _. }
  unfold parse_scan in E.
  apply bind_ret_inv in E as (ds & h3 & _ & E).
  apply parse_items_delegate in E as ->.
  unfold parse_local_action in Hloc.
  rewrite (bind_ret _ _ _ _ _
             (contains_run task_ds _ "local_action" rec Hrec1)) in Hloc.
  destruct (dict_has "local_action" rec).
  - destruct (is_not_none _); [done|].
    apply bind_ret_inv in Hloc as (thing & h4 & _ & Hloc).
    apply bind_ret_inv in Hloc as ([a fa] & h5 & _ & Hloc).
    by injection Hloc as <- _.
  - by injection Hloc as <- _.
Qed.

(** X4: the operation that [parse] returns is never [None] and never
    [shell]. *)
Theorem parse_returns_no_shell h a fa d h' :
  parse is_space maxint module_loader parse_kv iteritems task_ds h = (Ret (a,
      fa, d), h') ->
  a <> VNone /\ a <> VStr "shell".
Proof.
  intros E. apply parse_ret_inv in E as (st & h1 & _ & E).
  apply parse_finish_ret_inv in E as (Hst & -> & _).
  by apply final_action_not_shell.
Qed.

(** X5: the [delegate_to] that [parse] returns for a record is
    ["localhost"] when the record has a [local_action] key and [None]
    when it has none, whatever else the record holds. *)
Theorem parse_delegate_to h rec a fa d h' :
  h !! task_ds = Some rec ->
  parse is_space maxint module_loader parse_kv iteritems task_ds h = (Ret (a,
      fa, d), h') ->
  d = if dict_has "local_action" rec then VStr "localhost" else VNone.
Proof.
  intros Hrec E. apply parse_ret_inv in E as (st & h1 & Hdet & E).
  apply parse_finish_ret_inv in E as (_ & _ & _ & ->).
  by eapply parse_determine_delegate.
Qed.

Lemma tidy_parse_finish_result st :
  tidy its_result (its_locals st) (parse_finish task_ds st).
Proof.
  intros n h Hn Hneed.
  destruct (tidy_parse_finish task_ds st n h Hn Hneed) as (Ht & Hlen & _).
  split_and!; [done..|].
  intros [[a fa] d] l E [= <-].
  destruct (parse_finish task_ds st h) as [r h'] eqn:Hrun. simpl in *.
  subst r. apply parse_finish_ret_inv in Hrun as (_ & _ & -> & _).
  specialize (Hneed (args st) eq_refl). lia.
Qed.

(** X6: the dictionary of parameters that [parse] returns is a new
    object: it is none of the store that [parse] was run from, so none
    that the record or a value in it refers to. *)
Theorem parse_returns_new_dict h a fa d h' :
  parse is_space maxint module_loader parse_kv iteritems task_ds h = (Ret (a,
      fa, d), h') ->
  length h <= fa < length h'.
Proof.
  intros E.
  assert (tidy its_result None
            (parse is_space maxint module_loader parse_kv iteritems task_ds)) as
                Ht.
  { unfold parse.
    eapply tidy_bind_own; [apply tidy_parse_init|]. intros [st aa]. simpl.
    eapply tidy_bind_own; [apply tidy_parse_action|]. intros st1.
    eapply tidy_bind_own; [apply tidy_parse_local_action|]. intros st2.
    eapply tidy_bind_own; [apply tidy_parse_scan|]. intros st3.
    apply tidy_parse_finish_result. }
  destruct (Ht (length h) h ltac:(lia) ltac:(done)) as (_ & _ & Hown).
  rewrite E in Hown. by apply (Hown (a, fa, d) fa).
Qed.
End Returns.

(** ** The walk over the record *)

Section Walk.
Variable is_space : ascii -> bool.
Variable maxint : Z.
Variable module_loader : string -> bool.
Variable parse_kv : string -> bool -> dict.
Variable task_ds : loc.

(** A walk that returns met no key that names an operation, or met one,
    with no operation determined before, and normalized its value. *)
Lemma parse_items_ret_inv aa items : forall st h st' h',
  parse_items is_space maxint module_loader parse_kv task_ds aa items st h =
      (Ret st', h') ->
  ((forall k v, (k, v) ∈ items -> known module_loader k = false) /\
   st' = st /\ h' = h) \/
  exists pre k v post a fa,
    items = pre ++ (k, v) :: post /\
    (forall k' v', (k', v') ∈ pre ++ post ->
                   known module_loader k' = false) /\
    known module_loader k = true /\
    is_not_none (action st) = false /\
    _normalize_parameters is_space maxint parse_kv task_ds v (VStr k) aa h
    = (Ret (a, fa), h') /\
    st' = Locals a fa (delegate_to st).
Proof.
  induction items as [|[k v] items IH]; intros st h st' h' E; simpl in E.
  - left. injection E as <- <-. split; [|done].
    intros k v Hin. by apply elem_of_nil in Hin.
  - destruct (module_loader k || String.eqb k "meta") eqn:Hk.
    + destruct (is_not_none (action st)) eqn:Hst; [done|].
      apply bind_ret_inv in E as ([a fa] & h1 & Hnp & E).
      right. exists [], k, v, items, a, fa.
      apply normalize_parameters_action in Hnp as Ha; [|done]. subst a.
      apply IH in E as [(Hno & -> & ->) | Hsecond].
      * by split_and!.
      * by destruct Hsecond as (? & ? & ? & ? & ? & ? & _ & _ & _ & ? & _).
    + apply IH in E as [(Hno & -> & ->) | Hone].
      * left. split; [|done]. intros k' v' Hin.
        apply elem_of_cons in Hin as [[= -> ->] | Hin]; [done|by eapply Hno].
      * destruct Hone as (pre & k1 & v1 & post & a & fa & -> & Hno & ?).
        right. exists ((k, v) :: pre), k1, v1, post, a, fa.
        split_and!; try tauto.
        intros k' v' Hin. simpl in Hin.
        apply elem_of_cons in Hin as [[= -> ->] | Hin]; [done|by eapply Hno].
Qed.

(** The order of the walk does not matter to a walk that returns. *)
Lemma parse_items_perm aa items1 items2 st h st' h' :
  items1 ≡ₚ items2 -> NoDup items2 ->
  parse_items is_space maxint module_loader parse_kv task_ds aa items1 st h =
      (Ret st', h') ->
  parse_items is_space maxint module_loader parse_kv task_ds aa items2 st h =
      (Ret st', h').
Proof.
  intros Hperm Hnd E.
  apply parse_items_ret_inv in E as [(Hno & -> & ->) | Hone].
  - apply parse_items_skip. intros k v Hin. apply (Hno k v).
    by rewrite Hperm.
  - destruct Hone as (pre & k & v & post & a & fa & -> & Hno & Hk & Hst
                      & Hnp & ->).
    assert ((k, v) ∈ items2) as Hin by (rewrite <-Hperm; set_solver).
    apply list_elem_of_split in Hin as (pre2 & post2 & ->).
    assert (forall k' v', (k', v') ∈ pre2 ++ post2 ->
                          known module_loader k' = false) as Hno2.
    { intros k' v' Hin. apply (Hno k' v').
      apply NoDup_app in Hnd as (_ & Hdisj & Hpost).
      apply NoDup_cons in Hpost as [Hnotin _].
      assert ((k', v') <> (k, v)) as Hne.
      { intros [= -> ->]. apply elem_of_app in Hin as [Hin | Hin].
        - apply (Hdisj (k, v)); [done|by left].
        - done. }
      assert ((k', v') ∈ pre ++ (k, v) :: post) as Hin1.
      { rewrite Hperm. apply elem_of_app in Hin as [Hin | Hin].
        - apply elem_of_app. by left.
        - apply elem_of_app. right. by right. }
      apply elem_of_app in Hin1 as [Hin1 | Hin1].
      - apply elem_of_app. by left.
      - apply elem_of_cons in Hin1 as [Heq | Hin1]; [done|].
        apply elem_of_app. by right. }
    rewrite parse_items_skip_app
      by (intros k' v' Hin'; apply (Hno2 k' v'), elem_of_app; by left).
    simpl. unfold known in Hk. rewrite Hk, Hst.
    rewrite (bind_ret _ _ _ _ _ Hnp).
    apply parse_items_skip.
    intros k' v' Hin'. apply (Hno2 k' v'), elem_of_app. by right.
Qed.
End Walk.

Section Orders.
Variable is_space : ascii -> bool.
Variable maxint : Z.
Variable module_loader : string -> bool.
Variable parse_kv : string -> bool -> dict.
Variable task_ds : loc.
Variable iteritems1 iteritems2 : dict -> list (string * value).
Hypothesis iteritems1_perm : forall d, iteritems1 d ≡ₚ map_to_list d.
Hypothesis iteritems2_perm : forall d, iteritems2 d ≡ₚ map_to_list d.

(** X7: what [parse] returns does not depend on the order in which the
    keys of the record are walked: a call that returns, returns the same
    and leaves the same store in any other order. *)
Theorem parse_order_independent h r h' :
  parse is_space maxint module_loader parse_kv iteritems1 task_ds h = (Ret r,
      h') ->
  parse is_space maxint module_loader parse_kv iteritems2 task_ds h = (Ret r,
      h').
Proof.
  rewrite !parse_unfold. intros E.
  apply bind_ret_inv in E as ([st0 aa] & h0 & Hinit & E).
  apply bind_ret_inv in E as (st1 & h1 & Hact & E).
  apply bind_ret_inv in E as (st2 & h2 & Hloc & E).
  apply bind_ret_inv in E as (st3 & h3 & Hscan & E).
  rewrite (bind_ret _ _ _ _ _ Hinit), (bind_ret _ _ _ _ _ Hact),
    (bind_ret _ _ _ _ _ Hloc).
  erewrite bind_ret; [exact E|].
  unfold parse_scan in *.
  apply bind_ret_inv in Hscan as (ds & h4 & Hds & Hscan).
  rewrite (bind_ret _ _ _ _ _ Hds).
  eapply parse_items_perm; [| |exact Hscan].
  - by rewrite iteritems1_perm, iteritems2_perm.
  - rewrite iteritems2_perm. apply NoDup_map_to_list.
Qed.
End Orders.

Section Keys.
Variable is_space : ascii -> bool.
Variable maxint : Z.
Variable module_loader : string -> bool.
Variable parse_kv : string -> bool -> dict.
Variable iteritems : dict -> list (string * value).
Hypothesis iteritems_perm : forall d, iteritems d ≡ₚ map_to_list d.
Variable task_ds : loc.

(** X8: for a record with neither an [action] nor a [local_action] key,
    the operation that [parse] returns is a key of the record that the
    registry knows or that is [meta], or [command] when that key is
    [shell]; and [delegate_to] is [None]. *)
Theorem parse_returns_known_key h rec a fa d h' :
  h !! task_ds = Some rec ->
  rec !! "action" = None ->
  rec !! "local_action" = None ->
  parse is_space maxint module_loader parse_kv iteritems task_ds h = (Ret (a,
      fa, d), h') ->
  exists k,
    is_Some (rec !! k) /\ known module_loader k = true /\
    a = final_action (VStr k) /\ d = VNone.
Proof.
  intros Hrec Ha Hl E. rewrite parse_unfold in E.
  rewrite (bind_ret _ _ _ _ _ (parse_init_run task_ds h rec Hrec)) in E.
  assert ((h ++ [∅; ∅]) !! task_ds = Some rec) as Hrec0
    by by apply lookup_app_l_Some.
  unfold parse_action, parse_local_action in E.
  rewrite bind_assoc,
    (bind_ret _ _ _ _ _ (contains_run task_ds _ "action" rec Hrec0)) in E.
  unfold dict_has in E. rewrite Ha in E.
  rewrite (bind_ret _ _ _ (Locals VNone (length h) VNone) (h ++ [∅; ∅]))
    in E by done.
  rewrite bind_assoc,
    (bind_ret _ _ _ _ _ (contains_run task_ds _ "local_action" rec Hrec0))
    in E.
  unfold dict_has in E. rewrite Hl in E.
  rewrite (bind_ret _ _ _ (Locals VNone (length h) VNone) (h ++ [∅; ∅]))
    in E by done.
  apply bind_ret_inv in E as (st & h1 & Hscan & E).
  apply parse_finish_ret_inv in E as (Hst & -> & _ & ->).
  unfold parse_scan in Hscan.
  rewrite (bind_ret _ _ _ _ _ (deref_at _ _ _ Hrec0)) in Hscan.
  apply parse_items_ret_inv in Hscan as [(_ & -> & _) | Hone]; [done|].
  destruct Hone as (pre & k & v & post & a & fa' & Hitems & _ & Hk & _
                    & Hnp & ->).
  apply normalize_parameters_action in Hnp as ->; [|done].
  exists k. split_and!; try done.
  exists v. apply (iteritems_lookup iteritems iteritems_perm).
  rewrite Hitems. apply elem_of_app. right. by left.
Qed.
End Keys.

(** ** The errors of a run *)

Section MayRaise.
Context {A B : Type} (P : exn -> Prop).

Lemma may_raise_ret (a : A) : may_raise P (ret a).
Proof. by intros h e. Qed.

Lemma may_raise_raise e : P e -> may_raise P (raise (A := A) e).
Proof. by intros He h e' [= <-]. Qed.

(** What the continuation raises may be judged on the store that the
    first computation left. *)
Lemma may_raise_bind_from (m : M A) (k : A -> M B) :
  may_raise P m ->
  (forall a h h', m h = (Ret a, h') ->
                  forall e, (k a h').1 = Raise e -> P e) ->
  may_raise P (bind m k).
Proof.
  intros Hm Hk h e. unfold bind.
  destruct (m h) as [[a|e'] h1] eqn:E.
  - by apply (Hk a h h1).
  - intros [= <-]. apply (Hm h). by rewrite E.
Qed.

Lemma may_raise_bind (m : M A) (k : A -> M B) :
  may_raise P m -> (forall a, may_raise P (k a)) -> may_raise P (bind m k).
Proof.
  intros Hm Hk. apply may_raise_bind_from; [done|].
  intros a h h' _ e. apply Hk.
Qed.
End MayRaise.

Lemma expected_DanglingRef maxint task_ds : expected_error maxint task_ds
    DanglingRef.
Proof. unfold expected_error. tauto. Qed.

Lemma expected_IndexError maxint task_ds : expected_error maxint task_ds
    IndexError.
Proof. unfold expected_error. tauto. Qed.

Lemma expected_TypeError maxint task_ds : expected_error maxint task_ds
    TypeError.
Proof. unfold expected_error. tauto. Qed.

Lemma expected_ValueError maxint task_ds : expected_error maxint task_ds
    ValueError.
Proof. unfold expected_error. tauto. Qed.

Lemma expected_unexpected_type maxint task_ds thing :
  printed thing = true ->
  expected_error maxint task_ds (unexpected_type maxint task_ds thing).
Proof.
  intros Hp. left. eexists. split; [done|]. do 3 right. by exists thing.
Qed.

Section Errors.
Variable is_space : ascii -> bool.
Variable maxint : Z.
Variable module_loader : string -> bool.
Variable parse_kv : string -> bool -> dict.
Variable iteritems : dict -> list (string * value).
Variable task_ds : loc.

Local Abbreviation fine := (may_raise (expected_error maxint task_ds)).

Lemma fine_deref l : fine (deref l).
Proof.
  intros h e. unfold deref. destruct (_ !! _); [done|].
  intros [= <-]. apply expected_DanglingRef.
Qed.

Lemma fine_alloc d : fine (alloc d).
Proof. by intros h e. Qed.

Lemma fine_store l d : fine (store l d).
Proof. by intros h e. Qed.

Create HintDb fine.
#[local] Hint Resolve fine_deref fine_alloc fine_store
  may_raise_ret : fine.
#[local] Hint Extern 1 (may_raise _ (raise _)) =>
  apply may_raise_raise;
  first [ apply expected_DanglingRef | apply expected_IndexError
        | apply expected_TypeError | apply expected_ValueError
        | apply expected_unexpected_type; reflexivity ] : fine.

Ltac fine_walk :=
  repeat first
    [ solve [auto with fine]
    | lazymatch goal with
      | |- may_raise _ (bind _ _) => apply may_raise_bind; [|intros ?]
      end ].

Lemma fine_truth v : fine (truth v).
Proof. destruct v; simpl; fine_walk. Qed.

Lemma fine_get k dflt l : fine (get k dflt l).
Proof. unfold get. fine_walk. Qed.

Lemma fine_contains k l : fine (contains k l).
Proof. unfold contains. fine_walk. Qed.

Lemma fine_setitem k v l : fine (setitem k v l).
Proof. unfold setitem. fine_walk. Qed.

Lemma fine_update l x : fine (update l x).
Proof. destruct x; simpl; fine_walk. destruct (String.eqb _ _); fine_walk. Qed.

#[local] Hint Resolve fine_truth fine_get fine_contains fine_setitem
  fine_update : fine.

Lemma fine_update_if l x : fine (update_if l x).
Proof. unfold update_if. fine_walk. destruct a; fine_walk. Qed.

Lemma fine_split_module_string s : fine (_split_module_string is_space s).
Proof.
  unfold _split_module_string, index.
  destruct (Nat.ltb _ _); destruct (_ !! _); fine_walk.
Qed.

Lemma fine_normalize_old_style_args thing a :
  fine (_normalize_old_style_args maxint parse_kv task_ds thing a).
Proof. destruct thing; simpl; fine_walk. Qed.

(** [_normalize_new_style_args] on a mapping: it returns the [module]
    field and a copy without it, or nothing for a mapping without one. *)
Lemma normalize_new_style_args_mapping h l m :
  h !! l = Some m ->
  _normalize_new_style_args is_space maxint parse_kv task_ds (VDict l) h
  = match m !! "module" with
    | Some a =>
        (Ret (a, Some (length h + 1)), h ++ [m; delete "module" m])
    | None => (Ret (VNone, None), h ++ [m])
    end.
Proof.
  intros Hl. simpl. unfold copy at 1. rewrite bind_assoc.
  run_by ltac:(by apply deref_at). run_by ltac:(apply alloc_first).
  unfold contains. rewrite bind_assoc.
  run_by ltac:(by apply deref_new). run_by ltac:(reflexivity).
  unfold dict_has. destruct (m !! "module") as [a|] eqn:Hmod; [|done].
  unfold getitem. rewrite bind_assoc.
  run_by ltac:(by apply deref_new). rewrite Hmod.
  run_by ltac:(reflexivity). unfold copy. rewrite bind_assoc.
  run_by ltac:(by apply deref_new). run_by ltac:(apply alloc_app).
  unfold delitem. rewrite bind_assoc. simpl.
  run_by ltac:(by apply deref_new). unfold dict_has. rewrite Hmod.
  by run_by ltac:(apply store_new).
Qed.

Lemma fine_normalize_new_style_args thing :
  fine (_normalize_new_style_args is_space maxint parse_kv task_ds thing).
Proof.
  pose proof fine_split_module_string.
  destruct thing as [|b|z|s|l];
    [simpl; fine_walk|simpl; fine_walk|simpl; fine_walk| |].
  - simpl. fine_walk. destruct a. fine_walk.
  - intros h e. destruct (h !! l) as [m|] eqn:Hl.
    + rewrite (normalize_new_style_args_mapping h l m Hl).
      by destruct (m !! "module").
    + simpl. unfold copy, bind, deref. rewrite Hl. simpl.
      intros [= <-]. apply expected_DanglingRef.
Qed.

Lemma fine_unwrap_args args : fine (unwrap_args args).
Proof.
  destruct args as [l|]; [|simpl; fine_walk].
  intros h e. destruct (h !! l) as [m|] eqn:Hl.
  - by rewrite (unwrap_args_run h l m Hl).
  - simpl. unfold bind, deref. rewrite Hl. simpl.
    intros [= <-]. apply expected_DanglingRef.
Qed.

Lemma fine_normalize_parameters thing a aa :
  fine (_normalize_parameters is_space maxint parse_kv task_ds thing a aa).
Proof.
  pose proof fine_update_if. pose proof fine_unwrap_args.
  pose proof fine_normalize_old_style_args.
  pose proof fine_normalize_new_style_args.
  unfold _normalize_parameters. fine_walk.
  - destruct (is_not_none a); fine_walk.
  - destruct a2. fine_walk.
Qed.

(** [self._task_ds['action']] is read after ['action' in self._task_ds]. *)
Lemma fine_parse_action aa st : fine (parse_action is_space maxint parse_kv
    task_ds aa st).
Proof.
  pose proof fine_normalize_parameters.
  unfold parse_action. apply may_raise_bind_from; [auto with fine|].
  intros present h h' Hc e.
  apply contains_ret_inv in Hc as (rec & Hrec & -> & ->).
  unfold dict_has. destruct (rec !! "action") as [thing|] eqn:Ha; [|done].
  unfold getitem. rewrite bind_assoc, (bind_ret _ _ _ _ _ (deref_at _ _ _
      Hrec)).
  rewrite Ha. rewrite (bind_ret _ _ _ thing h) by done.
  revert e. refine (may_raise_bind _ _ _ _ _ h); [done|].
  intros [a fa]. fine_walk.
Qed.
Lemma expected_parser_error msg :
  msg = "action and local_action are mutually exclusive" \/
  msg = "conflicting action statements" \/
  msg = "no action detected in task" ->
  expected_error maxint task_ds (AnsibleParserError msg task_ds).
Proof. intros Hmsg. left. exists msg. split; [done|]. tauto. Qed.

Lemma fine_parse_local_action aa st :
  fine (parse_local_action is_space maxint parse_kv task_ds aa st).
Proof.
  pose proof fine_normalize_parameters.
  unfold parse_local_action. fine_walk. destruct a; [|fine_walk].
  destruct (is_not_none _).
  - apply may_raise_raise, expected_parser_error. tauto.
  - fine_walk. destruct a0. fine_walk.
Qed.

Lemma fine_parse_items aa items : forall st,
  fine (parse_items is_space maxint module_loader parse_kv task_ds aa items st).
Proof.
  pose proof fine_normalize_parameters.
  induction items as [|[k v] items IH]; intros st; simpl; [fine_walk|].
  destruct (_ || _); [|apply IH].
  destruct (is_not_none _).
  - apply may_raise_raise, expected_parser_error. tauto.
  - apply may_raise_bind; [done|]. intros [a fa]. apply IH.
Qed.

Lemma fine_parse_finish st : fine (parse_finish task_ds st).
Proof.
  unfold parse_finish. destruct (is_not_none _).
  - apply may_raise_bind; [|intros [a fa]; fine_walk].
    unfold _handle_shell_weirdness.
    destruct (negb _); [fine_walk|]. destruct (py_eq_str _ _); fine_walk.
  - apply may_raise_raise, expected_parser_error. tauto.
Qed.

Lemma fine_parse :
  fine (parse is_space maxint module_loader parse_kv iteritems task_ds).
Proof.
  pose proof fine_parse_action. pose proof fine_parse_local_action.
  pose proof fine_parse_items. pose proof fine_parse_finish.
  unfold parse. apply may_raise_bind; [unfold parse_init; fine_walk|].
  intros [st aa]. fine_walk. unfold parse_scan. fine_walk.
Qed.

(** X9: every error that [parse] raises is one of the parser's own four,
    raised with the record, or an [IndexError], [TypeError] or
    [ValueError] of an operation it uses (or the mark of a reference to
    no object); it is never a [KeyError]: every key is looked up after a
    test that it is there. *)
Theorem parse_raises_expected h e :
  raises (parse is_space maxint module_loader parse_kv iteritems task_ds) h e ->
  expected_error maxint task_ds e /\ e <> KeyError.
Proof.
  intros He. apply fine_parse in He. split; [done|].
  intros ->. destruct He as [(msg & [=] & _) | [|[|[|]]]]; done.
Qed.
End Errors.

Section Edges.
Variable is_space : ascii -> bool.
Variable maxint : Z.
Variable module_loader : string -> bool.
Variable parse_kv : string -> bool -> dict.
Variable iteritems : dict -> list (string * value).
Hypothesis iteritems_perm : forall d, iteritems d ≡ₚ map_to_list d.
Variable task_ds : loc.

Local Abbreviation parse :=
  (parse is_space maxint module_loader parse_kv iteritems task_ds).

Lemma update_if_raises fa x e h :
  update_error x = Some e -> update_if fa x h = (Raise e, h).
Proof.
  unfold update_if. destruct x as [|[|]|z|s|l]; simpl; try done.
  - by intros [= <-].
  - unfold bind, ret. simpl. destruct (Z.eqb z 0); [done|]. by intros [= <-].
  - unfold bind, ret. simpl. destruct (String.eqb s ""); [done|].
    by intros [= <-].
Qed.

(** X10: a record that names its operation in one form, giving there a
    boolean or a number, or [None] under [action] or [local_action]:
    when its shared defaults can be taken, [parse] fails with the
    parser's error for the type of that value ([int] or [long] for a
    number, by [sys.maxint]), raised with the record. *)
Theorem parse_refuses_value h rec f thing dflt :
  h !! task_ds = Some rec ->
  sole_form module_loader rec f thing ->
  defaults h rec = Some dflt ->
  refused f thing = true ->
  raises parse h (unexpected_type maxint task_ds thing).
Proof.
  intros Hrec Hsole Hd Hr. eapply raises_intro.
  rewrite (parse_sole_form is_space maxint module_loader parse_kv iteritems
      iteritems_perm
             task_ds h rec f thing Hrec Hsole).
  unfold _normalize_parameters. rewrite !bind_assoc.
  run_by ltac:(reflexivity). rewrite !bind_assoc.
  run_by ltac:(eapply update_if_run;
               [by apply items_of_app, defaults_items
               |by apply list_lookup_middle]).
  destruct f, thing; simpl in Hr |- *; done.
Qed.

(** X11: a record that names its operation in one form and whose [args]
    is a string that is not empty, or [True] or a number other than 0:
    [parse] raises [ValueError] for the string and [TypeError] for the
    others, whatever the operation and its value are. *)
Theorem parse_rejects_defaults h rec f thing x e :
  h !! task_ds = Some rec ->
  sole_form module_loader rec f thing ->
  rec !! "args" = Some x ->
  update_error x = Some e ->
  raises parse h e.
Proof.
  intros Hrec Hsole Hx He. eapply raises_intro.
  rewrite (parse_sole_form is_space maxint module_loader parse_kv iteritems
      iteritems_perm
             task_ds h rec f thing Hrec Hsole).
  unfold _normalize_parameters. rewrite !bind_assoc.
  run_by ltac:(reflexivity). rewrite !bind_assoc.
  rewrite Hx. simpl.
  by rewrite (bind_raise _ _ _ _ _ (update_if_raises _ _ _ _ He)).
Qed.

(** X12: [_normalize_new_style_args] on a mapping with a [module] field
    returns that field and a new dictionary that holds the other items;
    the mapping itself keeps its [module] field. *)
Theorem normalize_new_style_args_copies h l m a :
  h !! l = Some m ->
  m !! "module" = Some a ->
  exists args h',
    _normalize_new_style_args is_space maxint parse_kv task_ds (VDict l) h
    = (Ret (a, Some args), h') /\
    length h <= args /\
    h' !! args = Some (delete "module" m) /\
    h' !! l = Some m.
Proof.
  intros Hl Hmod. exists (length h + 1), (h ++ [m; delete "module" m]).
  rewrite (normalize_new_style_args_mapping is_space maxint parse_kv task_ds h l
      m Hl), Hmod.
  split_and!; [done|lia|by rewrite lookup_new|by apply lookup_app_l_Some].
Qed.

(** X13: a record that names its operation by the key of a known
    operation and nowhere else, with [None] as the value (an operation
    that takes no parameters): [parse] returns the shared defaults as
    the parameters. *)
Theorem parse_no_parameters h rec name dflt :
  h !! task_ds = Some rec ->
  sole_form module_loader rec (Module name) VNone ->
  defaults h rec = Some dflt ->
  returns parse h
    (final_action (VStr name)) (final_params (VStr name) dflt) VNone.
Proof.
  intros Hrec Hsole Hd. rewrite <-(left_id_L ∅ (∪) dflt).
  by apply (parse_form_returns is_space maxint module_loader parse_kv iteritems
      iteritems_perm
              task_ds h rec (Module name) VNone).
Qed.

(** X14: a record that names its operation by the key of a known
    operation and nowhere else, with a string as the value: the whole
    string goes to the tokenizer, in raw mode iff the key is [command],
    [shell] or [script], and when the result has no [args] key, [parse]
    returns it laid over the shared defaults (for [shell] as [command],
    with [_uses_shell]). *)
Theorem parse_module_string h rec name s dflt :
  h !! task_ds = Some rec ->
  sole_form module_loader rec (Module name) (VStr s) ->
  defaults h rec = Some dflt ->
  parse_kv s (py_in (VStr name) ["command"; "shell"; "script"]) !! "args"
  = None ->
  returns parse h
    (final_action (VStr name))
    (final_params (VStr name)
       (parse_kv s (py_in (VStr name) ["command"; "shell"; "script"]) ∪ dflt))
    VNone.
Proof.
  intros Hrec Hsole Hd Hp.
  apply (parse_form_returns is_space maxint module_loader parse_kv iteritems
      iteritems_perm
           task_ds h rec (Module name) (VStr s)); try done.
  unfold structural_params. cbn -[py_in]. unfold unwrapped. by rewrite Hp.
Qed.
(** X15: a record with both an [action] and a [local_action] key, whose
    [action] value is normalized to an operation: [parse] fails with the
    error "action and local_action are mutually exclusive", raised with
    the record. *)
Theorem action_and_local_action_exclusive
    h rec thing st0 additional_args h0 a fa h1 :
  h !! task_ds = Some rec ->
  rec !! "action" = Some thing ->
  is_Some (rec !! "local_action") ->
  parse_init task_ds h = (Ret (st0, additional_args), h0) ->
  _normalize_parameters is_space maxint parse_kv task_ds thing VNone
      additional_args h0
  = (Ret (a, fa), h1) ->
  a <> VNone ->
  raises parse h
    (AnsibleParserError
       "action and local_action are mutually exclusive" task_ds).
Proof.
  intros Hrec Ha [tl Hl] Hinit Hnp Hsome.
  eapply raises_intro. rewrite parse_unfold.
  run_by ltac:(exact Hinit).
  rewrite (parse_init_run task_ds h rec Hrec) in Hinit.
  injection Hinit as <- <- <-.
  assert ((h ++ [∅; ∅]) !! task_ds = Some rec) as Hrec0
    by by apply lookup_app_l_Some.
  unfold parse_action. rewrite bind_assoc.
  run_by ltac:(by apply contains_run). unfold dict_has. rewrite Ha.
  unfold getitem. rewrite !bind_assoc.
  run_by ltac:(by apply deref_at). rewrite Ha.
  run_by ltac:(reflexivity). rewrite bind_assoc.
  run_by ltac:(exact Hnp). run_by ltac:(reflexivity).
  pose proof (normalize_parameters_keeps _ _ _ _ _ _ _ _ _ _ _ _ Hnp Hrec0)
    as Hrec1.
  unfold parse_local_action. rewrite bind_assoc.
  run_by ltac:(by apply contains_run). unfold dict_has. rewrite Hl.
  simpl. by destruct a.
Qed.
End Edges.

(** ** The properties above on the task records *)

(** X1, on the unit separator U+001F alone: whitespace in a [unicode]
    string, and a token in a byte string. *)
Lemma split_module_string_total_witness :
  _split_module_string unicode_space (String "031" "") []
  = (Raise IndexError, []) /\
  exists x rest,
    split str_space (String "031" "") = x :: rest /\
    token str_space x = true /\
    _split_module_string str_space (String "031" "") []
    = (Ret (x, join rest), []).
Proof.
  split.
  - exact (split_module_string_total unicode_space (String "031" "") []).
  - exact (split_module_string_total str_space (String "031" "") []).
Defined.

(** X2, on a string with runs of blanks. *)
Lemma split_module_string_tokens_witness :
  "copy" :: split str_space "src=a dest=b" = split str_space
      "copy  src=a   dest=b ".
Proof.
  apply (split_module_string_tokens str_space
           "copy  src=a   dest=b " [] "copy" "src=a dest=b" []).
  - reflexivity.
  - vm_compute; reflexivity.
Defined.

(** X3, on [shell]. *)
Lemma handle_shell_weirdness_idempotent_witness :
  _handle_shell_weirdness (VStr "command") 0
    [ {[ "_uses_shell" := VBool true ]} ]
  = (Ret (VStr "command", 0), [ {[ "_uses_shell" := VBool true ]} ]).
Proof.
  apply (handle_shell_weirdness_idempotent (VStr "shell") 0 [∅]).
  vm_compute; reflexivity.
Defined.

(** X4, on [{action: "shell echo hi"}]. *)
Lemma parse_returns_no_shell_witness :
  VStr "command" <> VNone /\ VStr "command" <> VStr "shell".
Proof.
  eapply (parse_returns_no_shell str_space maxint64 some_modules tokenize
      map_to_list 0
            task_action_shell (VStr "command") 3 VNone).
  reflexivity.
Defined.

(** X5, on [{local_action: "copy src=a dest=b"}]. *)
Lemma parse_delegate_to_witness :
  VStr "localhost"
  = if dict_has "local_action"
         ({[ "local_action" := VStr "copy src=a dest=b" ]} : dict)
    then VStr "localhost" else VNone.
Proof.
  eapply (parse_delegate_to str_space maxint64 some_modules tokenize map_to_list
      0
            task_local_copy _ (VStr "copy") 3).
  - reflexivity.
  - reflexivity.
Defined.

(** X6, on [{copy: "k1=v1", args: {k1: "default", k2: "default2"}}]:
    the record and its [args] are the objects 0 and 1, the parameters
    returned the object 4. *)
Lemma parse_returns_new_dict_witness :
  exists h' : heap, length task_copy_defaults <= 4 < length h'.
Proof.
  eexists.
  eapply (parse_returns_new_dict str_space maxint64 some_modules tokenize
      map_to_list 0
            task_copy_defaults (VStr "copy") 4 VNone).
  reflexivity.
Defined.

(** X7, on the same record, walked forwards and backwards. *)
Lemma parse_order_independent_witness :
  exists h',
    run_parse 0 task_copy_defaults = (Ret (VStr "copy", 4, VNone), h') /\
    run_parse_rev 0 task_copy_defaults = (Ret (VStr "copy", 4, VNone), h').
Proof.
  eexists. split; [reflexivity|].
  apply (parse_order_independent str_space maxint64 some_modules tokenize 0
           map_to_list (fun d => reverse (map_to_list d))
           walk_any (fun d => reverse_Permutation (map_to_list d))).
  reflexivity.
Defined.

(** X8, on the same record. *)
Lemma parse_returns_known_key_witness :
  exists k,
    is_Some ((<["copy" := VStr "k1=v1"]> {[ "args" := VDict 1 ]} : dict)
               !! k) /\
    known some_modules k = true /\
    VStr "copy" = final_action (VStr k) /\ VNone = VNone.
Proof.
  eapply (parse_returns_known_key str_space maxint64 some_modules tokenize
      map_to_list walk_any
            0 task_copy_defaults _ (VStr "copy") 4 VNone).
  - reflexivity.
  - vm_compute; reflexivity.
  - vm_compute; reflexivity.
  - reflexivity.
Defined.

(** X9, on [{copy: 5, file: 7}]. *)
Lemma parse_raises_expected_witness :
  expected_error maxint64 0
    (AnsibleParserError
       "unexpected parameter type in action: <type 'int'>" 0) /\
  AnsibleParserError "unexpected parameter type in action: <type 'int'>" 0
  <> KeyError.
Proof.
  apply (parse_raises_expected str_space maxint64 some_modules tokenize
      map_to_list 0
           task_two_modules_int).
  vm_compute; reflexivity.
Defined.

(** X10, on [{action: None}], and on [{copy: 2 ** 64}], whose value is a
    [long] where [sys.maxint] is [2 ** 63 - 1]. *)
Lemma parse_refuses_value_witness :
  raises (run_parse 0) task_action_none
    (AnsibleParserError
       "unexpected parameter type in action: <type 'NoneType'>" 0) /\
  raises (run_parse 0) task_copy_long
    (AnsibleParserError
       "unexpected parameter type in action: <type 'long'>" 0).
Proof.
  split.
  - apply (parse_refuses_value str_space maxint64 some_modules tokenize
             map_to_list walk_any 0
             task_action_none {[ "action" := VNone ]} Action VNone ∅).
    + reflexivity.
    + split; [by apply sole_key|]. split; vm_compute; reflexivity.
    + vm_compute; reflexivity.
    + reflexivity.
  - assert (AnsibleParserError
              "unexpected parameter type in action: <type 'long'>" 0
            = unexpected_type maxint64 0 (VInt (2 ^ 64)))
      as -> by (vm_compute; reflexivity).
    apply (parse_refuses_value str_space maxint64 some_modules tokenize
             map_to_list walk_any 0
             task_copy_long {[ "copy" := VInt (2 ^ 64) ]}
             (Module "copy") (VInt (2 ^ 64)) ∅).
    + reflexivity.
    + split; [|split_and!; vm_compute; reflexivity].
      intros k Hk [v Hv]. by apply lookup_singleton_Some in Hv as [<- _].
    + vm_compute; reflexivity.
    + reflexivity.
Defined.

(** X11, on [{copy: "a=b", args: "x"}]. *)
Lemma parse_rejects_defaults_witness :
  raises (run_parse 0) task_args_text ValueError.
Proof.
  apply (parse_rejects_defaults str_space maxint64 some_modules tokenize
      map_to_list walk_any 0
           task_args_text
           (<["copy" := VStr "a=b"]> {[ "args" := VStr "x" ]})
           (Module "copy") (VStr "a=b") (VStr "x")).
  - reflexivity.
  - split.
    + intros k Hk [v Hv].
      apply lookup_insert_Some in Hv as [[<- _] | [_ Hv]]; [done|].
      apply lookup_singleton_Some in Hv as [<- _]. discriminate Hk.
    + split_and!; vm_compute; reflexivity.
  - vm_compute; reflexivity.
  - reflexivity.
Defined.

(** X12, on the mapping of
    [{action: {module: "copy", args: {src: "a", dest: "b"}}}]. *)
Lemma normalize_new_style_args_copies_witness :
  exists args h',
    _normalize_new_style_args str_space maxint64 tokenize 0 (VDict 1)
        task_action_mapping
    = (Ret (VStr "copy", Some args), h') /\
    length task_action_mapping <= args /\
    h' !! args
    = Some (delete "module"
              (<["module" := VStr "copy"]> {[ "args" := VDict 2 ]})) /\
    h' !! 1 = Some (<["module" := VStr "copy"]> {[ "args" := VDict 2 ]}).
Proof.
  apply (normalize_new_style_args_copies str_space maxint64 tokenize 0
      task_action_mapping 1
           (<["module" := VStr "copy"]> {[ "args" := VDict 2 ]})
           (VStr "copy")).
  - reflexivity.
  - vm_compute; reflexivity.
Defined.

(** X13, on [{ping: None}]. *)
Lemma parse_no_parameters_witness :
  returns (run_parse 0) task_ping (VStr "ping") ∅ VNone.
Proof.
  apply (parse_no_parameters str_space maxint64 some_modules tokenize
      map_to_list walk_any 0
           task_ping {[ "ping" := VNone ]} "ping" ∅).
  - reflexivity.
  - split; [|split_and!; vm_compute; reflexivity].
    intros k Hk [v Hv]. by apply lookup_singleton_Some in Hv as [<- _].
  - vm_compute; reflexivity.
Defined.

(** X14, on [{copy: "src=a dest=b"}]: the spec's own example. *)
Lemma parse_module_string_witness :
  returns (run_parse 0) task_copy_string
    (VStr "copy") (<["src" := VStr "a"]> {[ "dest" := VStr "b" ]}) VNone.
Proof.
  assert (<["src" := VStr "a"]> {[ "dest" := VStr "b" ]}
          = final_params (VStr "copy")
              (tokenize "src=a dest=b"
                 (py_in (VStr "copy") ["command"; "shell"; "script"]) ∪ ∅))
    as -> by (vm_compute; reflexivity).
  apply (parse_module_string str_space maxint64 some_modules tokenize
      map_to_list walk_any 0
           task_copy_string {[ "copy" := VStr "src=a dest=b" ]}
           "copy" "src=a dest=b" ∅).
  - reflexivity.
  - split; [|split_and!; vm_compute; reflexivity].
    intros k Hk [v Hv]. by apply lookup_singleton_Some in Hv as [<- _].
  - vm_compute; reflexivity.
  - vm_compute; reflexivity.
Defined.

(** X15, on [{action: "copy a=b", local_action: "copy a=b"}]. *)
Lemma action_and_local_action_exclusive_witness :
  raises (run_parse 0) task_both
    (AnsibleParserError "action and local_action are mutually exclusive" 0).
Proof.
  eapply (action_and_local_action_exclusive str_space maxint64 some_modules
      tokenize map_to_list 0
            task_both _ (VStr "copy a=b")).
  - reflexivity.
  - vm_compute; reflexivity.
  - exists (VStr "copy a=b"). vm_compute; reflexivity.
  - reflexivity.
  - reflexivity.
  - discriminate.
Defined.
